(** * cx93001: a Python 3 interface for Conexant CX93001 voice modems

    Shallow embedding of [cx93001/cx93001.py] and the properties of its
    command channel, end-of-call detector, ring loop, playback loop and
    recording loop.

    Modelling conventions.
    - A Python [bytes] value is the list of its bytes ([list ascii]).  A
      [str] value is represented by its UTF-8 encoding, so [.encode()] is
      the identity; [.decode()] is the identity on valid UTF-8 and raises
      [UnicodeDecodeError] on anything else.  The texts searched for and
      replaced are ASCII, for which search and replacement on the
      encoding agree with those on the text.
    - The serial connection is a scripted transport: the results of the
      successive [readline()] / [read(n)] calls are the elements of [rx],
      in order; once the script is exhausted a read times out and yields
      [b''].  Everything written is logged, in order, in [tx].
    - The wall clock is a function of the number of clock readings done
      so far ([ticks]): the k-th reading of [time.time()] is
      [time_time k], that of [datetime.now()] is [datetime_now k]. *)

From Stdlib Require Import List String Ascii Bool Arith ZArith QArith Lia.
Import ListNotations.

Close Scope Q_scope.
Open Scope list_scope.

(** ** Bytes and strings *)

Abbreviation bytes := (list ascii) (only parsing).
Abbreviation str := (list ascii) (only parsing).

(** A literal, [b'...'] or ['...']. *)
Definition lit (s : string) : list ascii := list_ascii_of_string s.

Definition CR : ascii := ascii_of_nat 13.
Definition LF : ascii := ascii_of_nat 10.
Definition DLE : ascii := ascii_of_nat 16.
Definition ETX : ascii := ascii_of_nat 3.

Definition CRLF : bytes := [CR; LF].
Definition CRCRLF : bytes := [CR; CR; LF].

(** [x == y] on two byte strings. *)
Fixpoint bytes_eqb (x y : list ascii) : bool :=
  match x, y with
  | [], [] => true
  | a :: x', c :: y' => Ascii.eqb a c && bytes_eqb x' y'
  | _, _ => false
  end.

(** [x.startswith(p)]. *)
Fixpoint startswith (p x : list ascii) : bool :=
  match p, x with
  | [], _ => true
  | a :: p', c :: x' => Ascii.eqb a c && startswith p' x'
  | _ :: _, [] => false
  end.

(** [p in x]: substring search. *)
Fixpoint contains (p x : list ascii) : bool :=
  startswith p x ||
  match x with
  | [] => false
  | _ :: x' => contains p x'
  end.

(** [x.replace(old, new)] for a non-empty [old]: every non-overlapping
    occurrence, leftmost first.  [skip] counts the characters of a match
    that are still to be dropped. *)
Fixpoint replace_from (skip : nat) (old new x : list ascii) : list ascii :=
  match x with
  | [] => []
  | c :: x' =>
      match skip with
      | S k => replace_from k old new x'
      | O =>
          if startswith old x
          then new ++ replace_from (Nat.pred (List.length old)) old new x'
          else c :: replace_from O old new x'
      end
  end.

Definition replace (old new x : list ascii) : list ascii :=
  replace_from O old new x.

(** ** The serial connection and the clock *)

Record World : Type := mkWorld {
  rx : list bytes;     (* results of the reads still to come *)
  tx : list bytes;     (* what was written, oldest first *)
  ticks : nat          (* clock readings done so far *)
}.

(** Stateful code is a function from the world to a result and a world. *)
Definition M (A : Type) : Type := World -> A * World.

Definition ret {A} (a : A) : M A := fun w => (a, w).
Definition bind {A B} (m : M A) (k : A -> M B) : M B :=
  fun w => let (a, w') := m w in k a w'.

Notation "x <- m ;; k" := (bind m (fun x => k))
  (at level 61, m at next level, right associativity).
Notation "m ;;; k" := (bind m (fun _ => k))
  (at level 61, right associativity).

(** [self.__con.write(data)] *)
Definition con_write (data : bytes) : M unit :=
  fun w => (tt, mkWorld (rx w) (tx w ++ [data]) (ticks w)).

(** [self.__con.readline()] *)
Definition con_readline : M bytes :=
  fun w =>
    match rx w with
    | [] => ([], w)
    | l :: rest => (l, mkWorld rest (tx w) (ticks w))
    end.

(** [self.__con.read(size)]: at most [size] bytes of the next scripted
    block. *)
Definition con_read (size : nat) : M bytes :=
  fun w =>
    match rx w with
    | [] => ([], w)
    | l :: rest => (firstn size l, mkWorld rest (tx w) (ticks w))
    end.

(** ** CommandChannel: [CX93001.__at] *)

(** [resp == b'\r\n' or resp == b'OK\r\n'] *)
Definition is_stray (resp : bytes) : bool :=
  bytes_eqb resp CRLF || bytes_eqb resp (lit "OK" ++ CRLF).

(** [while resp == b'\r\n' or resp == b'OK\r\n': resp = readline()],
    by recursion on the reads still to come; a read on the exhausted
    script yields [b''], which is not stray and ends the loop. *)
Fixpoint skip_stray (resp : bytes) (pending : list bytes)
  : bytes * list bytes :=
  match pending with
  | [] => if is_stray resp then ([], []) else (resp, [])
  | l :: pending' =>
      if is_stray resp then skip_stray l pending' else (resp, pending)
  end.

(** What [readline()] followed by the skipping loop leaves in [resp]. *)
Definition next_substantive (pending : list bytes) : bytes * list bytes :=
  match pending with
  | [] => ([], [])
  | l :: rest => skip_stray l rest
  end.

Definition while_stray (resp : bytes) : M bytes :=
  fun w =>
    let (r, pending) := skip_stray resp (rx w) in
    (r, mkWorld pending (tx w) (ticks w)).

Definition __at (cmd : str) (expected : str) : M bool :=
  con_write (cmd ++ [CR]) ;;;
  resp <- con_readline ;;
  resp <- while_stray resp ;;
  if negb (bytes_eqb resp (cmd ++ CRCRLF)) then ret false
  else
    resp <- con_readline ;;
    if bytes_eqb resp (expected ++ CRLF) then ret true else ret false.

(** The default [expected='OK']. *)
Definition at_ok (cmd : str) : M bool := __at cmd (lit "OK").

(** ** CallDetector: [CX93001.__detect_end] *)

(** [b'\x10s' in data or b'\x10b' in data or b'\x10\x03' in data] *)
Definition __detect_end (data : bytes) : bool :=
  contains (DLE :: lit "s") data
  || contains (DLE :: lit "b") data
  || contains [DLE; ETX] data.

(** ** Exceptions, dates and the clock *)

Inductive exn : Type :=
| CouldNotInitializeException (msg : string)
| ZeroDivisionError
| UnicodeDecodeError.

Record DateTime : Type := mkDateTime {
  year : nat; month : nat; day : nat;
  hour : nat; minute : nat; second : nat
}.

Definition digit (n : nat) : ascii := ascii_of_nat (48 + n mod 10).
Definition two_digits (n : nat) : str := [digit (n / 10); digit n].
Definition four_digits (n : nat) : str :=
  [digit (n / 1000); digit (n / 100); digit (n / 10); digit n].

(** [%Y]: the year in decimal, not padded (the C library's [strftime]
    writes 999 for the year 999); the years of a [datetime] are 1 to
    9999. *)
Definition year_digits (n : nat) : str :=
  if n <? 10 then [digit n]
  else if n <? 100 then two_digits n
  else if n <? 1000 then [digit (n / 100); digit (n / 10); digit n]
  else four_digits n.

(** [date.strftime('%d-%m-%Y_%H:%M:%S_')] *)
Definition strftime (d : DateTime) : str :=
  two_digits (day d) ++ lit "-" ++ two_digits (month d) ++ lit "-"
  ++ year_digits (year d) ++ lit "_" ++ two_digits (hour d) ++ lit ":"
  ++ two_digits (minute d) ++ lit ":" ++ two_digits (second d) ++ lit "_".

(** A Python value that is a byte string or a text string; [==] between
    the two kinds is [False]. *)
Inductive pyval : Type :=
| PyBytes (x : bytes)
| PyStr (s : str).

Definition py_eqb (u v : pyval) : bool :=
  match u, v with
  | PyBytes x, PyBytes y => bytes_eqb x y
  | PyStr x, PyStr y => bytes_eqb x y
  | _, _ => false
  end.

(** A [wave.Wave_read] object: the header fields and the frames not yet
    read ([framesize] bytes per frame). *)
Record Wave_read : Type := mkWave {
  nframes : Z;
  framerate : Z;
  framesize : nat;
  unread : bytes
}.

Definition getnframes (wav : Wave_read) : Z := nframes wav.
Definition getframerate (wav : Wave_read) : Z := framerate wav.

(** [wavobj.readframes(n)]: the next [n] frames (fewer at the end, [b'']
    once exhausted), which are consumed. *)
Definition readframes (n : nat) (wav : Wave_read) : bytes * Wave_read :=
  (firstn (n * framesize wav) (unread wav),
   mkWave (nframes wav) (framerate wav) (framesize wav)
          (skipn (n * framesize wav) (unread wav))).

(** The file that [record_call] writes through the [wave] module, and the
    name of the mp3 it is transcoded to. *)
Record Recording : Type := mkRecording {
  wav_path : str;
  nchannels : Z;
  sampwidth : Z;
  wav_framerate : Z;
  wav_frames : bytes;
  mp3_path : str
}.

(** What the class body leaves in the class object: default argument
    values are computed when the [def] statement runs. *)
Record ClassObject : Type := mkClass {
  record_call_date_default : DateTime
}.

Definition chunksize : nat := 1024.

(** *** [bytes.decode()]: strict UTF-8 *)

Definition byte_in (lo hi : nat) (c : ascii) : bool :=
  (lo <=? nat_of_ascii c) && (nat_of_ascii c <=? hi).

(** A continuation byte, [0x80] to [0xBF]. *)
Definition is_cont (c : ascii) : bool := byte_in 128 191 c.

(** Well-formed UTF-8: no stray or missing continuation byte, no overlong
    form, no surrogate, nothing above U+10FFFF. *)
Fixpoint utf8_valid (l : bytes) : bool :=
  match l with
  | [] => true
  | b0 :: r0 =>
      if byte_in 0 127 b0 then utf8_valid r0
      else if byte_in 194 223 b0 then
        match r0 with
        | b1 :: r1 => is_cont b1 && utf8_valid r1
        | _ => false
        end
      else if byte_in 224 239 b0 then
        match r0 with
        | b1 :: b2 :: r2 =>
            (if byte_in 224 224 b0 then byte_in 160 191 b1
             else if byte_in 237 237 b0 then byte_in 128 159 b1
             else is_cont b1)
            && is_cont b2 && utf8_valid r2
        | _ => false
        end
      else if byte_in 240 244 b0 then
        match r0 with
        | b1 :: b2 :: b3 :: r3 =>
            (if byte_in 240 240 b0 then byte_in 144 191 b1
             else if byte_in 244 244 b0 then byte_in 128 143 b1
             else is_cont b1)
            && is_cont b2 && is_cont b3 && utf8_valid r3
        | _ => false
        end
      else false
  end.

Definition decode (l : bytes) : exn + str :=
  if utf8_valid l then inr l else inl UnicodeDecodeError.

Section Clock.

Variable time_time : nat -> Q.
Variable datetime_now : nat -> DateTime.

(** [time.time()] *)
Definition time_now : M Q :=
  fun w => (time_time (ticks w), mkWorld (rx w) (tx w) (S (ticks w))).

(** [datetime.now()] *)
Definition date_now : M DateTime :=
  fun w => (datetime_now (ticks w), mkWorld (rx w) (tx w) (S (ticks w))).

(** [class CX93001: ... def record_call(self, date=datetime.now(), ...)] *)
Definition class_body : M ClassObject :=
  d <- date_now ;; ret (mkClass d).

(** *** [CX93001.__init__]: [inr w] is the constructed handle, whose
    connection is in state [w]; [inl e] is the exception raised.
    [port_opens] tells whether [self.__con.open()] succeeds. *)
Definition init (port_opens : bool) (w : World) : exn + World :=
  if negb port_opens then
    inl (CouldNotInitializeException "Could not open a serial connection")
  else
  let (ok, w) := at_ok (lit "ATE1") w in
  if negb ok then
    inl (CouldNotInitializeException "Could not enable command echoing")
  else
  let (ok, w) := at_ok (lit "AT") w in
  if negb ok then
    inl (CouldNotInitializeException "Could not execute AT commands")
  else
  let (ok, w) := at_ok (lit "AT&F0") w in
  if negb ok then
    inl (CouldNotInitializeException "Could not reset to default state")
  else
  let (ok, w) := at_ok (lit "ATV1") w in
  if negb ok then
    inl (CouldNotInitializeException "Could not enable verbose reporting")
  else
  let (ok, w) := at_ok (lit "ATE1") w in
  if negb ok then
    inl (CouldNotInitializeException "Could not enable command echoing")
  else
  let (ok, w) := at_ok (lit "AT+VCID=1") w in
  if negb ok then
    inl (CouldNotInitializeException "Could not enable caller ID")
  else inr w.

(** *** [CX93001.wait_call] *)

(** The body of [while True:], by recursion on the reads still to come.
    [None]: the script ran out before either [return]; from then on every
    [readline()] yields [b''], [data] is [''] and the loop turns for
    ever.  [Some (inl e)]: the exception [e] was raised. *)
Fixpoint ring_loop (max_rings_ignore_cid rings : Z) (pending : list bytes)
  : option (exn + str * list bytes) :=
  match pending with
  | [] => None
  | l :: rest =>
      match decode l with
      | inl e => Some (inl e)
      | inr text =>
          let data := replace CRLF [] text in
          if negb (bytes_eqb data []) then
            if contains (lit "NMBR") data then
              Some (inr (replace (lit "NMBR = ") [] data, rest))
            else if contains (lit "RING") data then
              let rings := (rings + 1)%Z in
              if (rings >=? max_rings_ignore_cid)%Z then Some (inr ([], rest))
              else ring_loop max_rings_ignore_cid rings rest
            else ring_loop max_rings_ignore_cid rings rest
          else ring_loop max_rings_ignore_cid rings rest
      end
  end.

Definition wait_call (max_rings_ignore_cid : Z) (w : World)
  : option (exn + (DateTime * str) * World) :=
  match ring_loop max_rings_ignore_cid 0 (rx w) with
  | None => None
  | Some (inl e) => Some (inl e)
  | Some (inr (number, rest)) =>
      let (d, w') := date_now (mkWorld rest (tx w) (ticks w)) in
      Some (inr ((d, number), w'))
  end.

(** *** [CX93001.hang_up] *)
Definition hang_up : M unit :=
  at_ok (lit "AT+FCLASS=8") ;;;
  at_ok (lit "ATH") ;;;
  ret tt.

(** *** [CX93001.play_audio_obj] *)

(** The [while data != '':] loop; [data] is what [readframes] returned, a
    byte string, and [''] is a text string.  [time.sleep(.06)] only lets
    the clock run.  [None]: out of fuel. *)
Fixpoint play_loop (fuel : nat) (start timeout : Q) (data : bytes)
    (wav : Wave_read) (w : World) : option (Wave_read * World) :=
  match fuel with
  | O => None
  | S fuel' =>
      if negb (py_eqb (PyBytes data) (PyStr [])) then
        let (_, w) := con_write data w in
        let (data, wav) := readframes chunksize wav in
        let (now, w) := time_now w in
        if Qle_bool timeout (now - start) then Some (wav, w)
        else play_loop fuel' start timeout data wav w
      else Some (wav, w)
  end.

(** [if timeout == 0: timeout = wavobj.getnframes() / wavobj.getframerate()] *)
Definition effective_timeout (wav : Wave_read) (timeout : Q) : exn + Q :=
  if Qeq_bool timeout 0 then
    if (getframerate wav =? 0)%Z then inl ZeroDivisionError
    else inr (inject_Z (getnframes wav) / inject_Z (getframerate wav))%Q
  else inr timeout.

Definition play_audio_obj (fuel : nat) (wav : Wave_read) (timeout : Q)
    (w : World) : option (exn + Wave_read * World) :=
  match effective_timeout wav timeout with
  | inl e => Some (inl e)
  | inr timeout =>
      let (_, w) := __at (lit "AT+VTX") (lit "OK") w in
      let (start_time, w) := time_now w in
      let (data, wav) := readframes chunksize wav in
      match play_loop fuel start_time timeout data wav w with
      | None => None
      | Some r => Some (inr r)
      end
  end.

(** *** [CX93001.record_call] *)

(** The [while True:] read loop.  [None]: out of fuel. *)
Fixpoint record_loop (fuel : nat) (start timeout : Q) (frames : list bytes)
    (w : World) : option (list bytes * World) :=
  match fuel with
  | O => None
  | S fuel' =>
      let (chunk, w) := con_read chunksize w in
      if __detect_end chunk then Some (frames, w)
      else
        let (now, w) := time_now w in
        if Qle_bool timeout (now - start) then Some (frames, w)
        else record_loop fuel' start timeout (frames ++ [chunk]) w
  end.

(** [date = None] stands for a call that omits the argument. *)
Definition record_call (cls : ClassObject) (fuel : nat)
    (date : option DateTime) (number : str) (timeout : Q) (w : World)
  : option (Recording * World) :=
  let date :=
    match date with
    | Some d => d
    | None => record_call_date_default cls
    end in
  let (_, w) := at_ok (lit "AT+FCLASS=8") w in
  let (_, w) := at_ok (lit "AT+VSM=1,8000,0,0") w in
  let (_, w) := at_ok (lit "AT+VLS=1") w in
  let (_, w) := at_ok (lit "AT+VSD=128,50") w in
  let (_, w) := __at (lit "AT+VRX") (lit "CONNECT") w in
  let (start, w) := time_now w in
  match record_loop fuel start timeout [] w with
  | None => None
  | Some (frames, w) =>
      let (_, w) := hang_up w in
      let path := strftime date ++ number ++ lit ".wav" in
      Some (mkRecording path 1 1 8000 (List.concat frames)
              (firstn (List.length path - 3) path ++ lit "mp3"), w)
  end.

End Clock.

(** *** [CX93001.self_test]: [x and y] evaluates [y] only when [x] is
    true. *)
Definition self_test : M bool :=
  r <- at_ok (lit "AT") ;;
  if negb r then ret false else
  r <- at_ok (lit "AT&F0") ;;
  if negb r then ret false else
  r <- at_ok (lit "ATV1") ;;
  if negb r then ret false else
  r <- at_ok (lit "ATE1") ;;
  if negb r then ret false else
  r <- at_ok (lit "AT+VCID=1") ;;
  if negb r then ret false else
  r <- at_ok (lit "ATI1") ;;
  if negb r then ret false else
  at_ok (lit "ATI2").

(** *** [CX93001.accept_call] *)
Definition accept_call : M unit :=
  at_ok (lit "AT+FCLASS=8") ;;;
  at_ok (lit "AT+VSM=1,8000,0,0") ;;;
  at_ok (lit "AT+VLS=1") ;;;
  at_ok (lit "ATA") ;;;
  ret tt.

(** *** [CX93001.reject_call] *)
Definition reject_call : M unit :=
  at_ok (lit "ATA") ;;;
  hang_up.

(** *** [CX93001.dial] *)
Definition dial (number : str) : M unit :=
  at_ok (lit "AT+FCLASS=8") ;;;
  at_ok (lit "AT+VSM=1,8000,0,0") ;;;
  at_ok (lit "AT+VLS=1") ;;;
  at_ok (lit "AT+VSD=128,50") ;;;
  at_ok (lit "ATD" ++ number) ;;;
  ret tt.

(** *** Auxiliary notions used to state the properties *)

(** The six start-up commands of [__init__], in order. *)
Definition startup_commands : list str :=
  [lit "ATE1"; lit "AT"; lit "AT&F0"; lit "ATV1"; lit "ATE1"; lit "AT+VCID=1"].

(** Run commands in order until one fails: [Some w'] when every one got
    its [OK], [None] as soon as one did not. *)
Fixpoint all_ok (cmds : list str) (w : World) : option World :=
  match cmds with
  | [] => Some w
  | c :: cs =>
      let (ok, w') := at_ok c w in
      if ok then all_ok cs w' else None
  end.

(** The transport script of a modem that answers each command with its
    echo and [OK]. *)
Definition script (cmds : list str) : list bytes :=
  flat_map (fun c => [c ++ CRCRLF; lit "OK" ++ CRLF]) cmds.

(** [data] of [wait_call] for a line read: [line.decode().replace('\r\n', '')]. *)
Definition line_data (l : bytes) : str := replace CRLF [] l.

(** A line that holds the caller-number token, and one that holds the
    ring token. *)
Definition is_nmbr_line (l : bytes) : bool := contains (lit "NMBR") (line_data l).
Definition is_ring_line (l : bytes) : bool := contains (lit "RING") (line_data l).

(** The number of lines holding the ring token. *)
Fixpoint ring_count (lines : list bytes) : Z :=
  match lines with
  | [] => 0
  | l :: rest => (if is_ring_line l then 1 else 0) + ring_count rest
  end%Z.

(** Send commands in order whatever the answers are. *)
Fixpoint send_all (cmds : list str) : M unit :=
  match cmds with
  | [] => ret tt
  | c :: cs => at_ok c ;;; send_all cs
  end.

(** Send commands in order up to the first one that fails. *)
Fixpoint send_while_ok (cmds : list str) : M bool :=
  match cmds with
  | [] => ret true
  | c :: cs => r <- at_ok c ;; if negb r then ret false else send_while_ok cs
  end.

(** The commands of [self_test], [accept_call] and [dial]. *)
Definition self_test_commands : list str :=
  [lit "AT"; lit "AT&F0"; lit "ATV1"; lit "ATE1"; lit "AT+VCID=1";
   lit "ATI1"; lit "ATI2"].
Definition accept_call_commands : list str :=
  [lit "AT+FCLASS=8"; lit "AT+VSM=1,8000,0,0"; lit "AT+VLS=1"; lit "ATA"].
Definition dial_commands (number : str) : list str :=
  [lit "AT+FCLASS=8"; lit "AT+VSM=1,8000,0,0"; lit "AT+VLS=1";
   lit "AT+VSD=128,50"; lit "ATD" ++ number].

(** The [i]-th block of [chunksize] frames of the audio [u], for frames
    of [fs] bytes. *)
Definition audio_block (fs : nat) (u : bytes) (i : nat) : bytes :=
  firstn (chunksize * fs) (skipn (i * (chunksize * fs)) u).

(** The world in which the loop of [play_audio_obj] starts: [AT+VTX]
    sent and answered, the start time taken. *)
Definition play_setup (w : World) : World :=
  let (_, w) := __at (lit "AT+VTX") (lit "OK") w in
  mkWorld (rx w) (tx w) (S (ticks w)).

(** The start time [play_audio_obj] takes. *)
Definition play_start (time_time : nat -> Q) (w : World) : Q :=
  time_time (Nat.pred (ticks (play_setup w))).


(** A fixed calendar clock and a line of each kind, for examples. *)
Definition noon (_ : nat) : DateTime := mkDateTime 2020 5 17 12 0 0.
Definition RING : bytes := lit "RING" ++ CRLF.
Definition BLANK : bytes := CRLF.

(** The block that the [i]-th [read(chunksize)] from now yields. *)
Definition chunk_at (w : World) (i : nat) : bytes :=
  firstn chunksize (nth i (rx w) []).

(** The time test of the [i]-th turn of a loop that reads the clock once
    per turn: [time.time() - start >= timeout]. *)
Definition timed_out_at (time_time : nat -> Q) (start timeout : Q)
    (w : World) (i : nat) : bool :=
  Qle_bool timeout (time_time (ticks w + i) - start).

(** The world the read loop of [record_call] leaves when it stops in its
    turn [n]: [n + 1] blocks read; the clock read in every turn but a last
    one ended by a marker. *)
Definition loop_exit_world (w : World) (n : nat) : World :=
  mkWorld (skipn (S n) (rx w)) (tx w)
          (ticks w + if __detect_end (chunk_at w n) then n else S n).

(** The world in which the read loop of [record_call] starts: the five
    mode commands sent and answered, the start time taken. *)
Definition record_setup (w : World) : World :=
  let (_, w) := at_ok (lit "AT+FCLASS=8") w in
  let (_, w) := at_ok (lit "AT+VSM=1,8000,0,0") w in
  let (_, w) := at_ok (lit "AT+VLS=1") w in
  let (_, w) := at_ok (lit "AT+VSD=128,50") w in
  let (_, w) := __at (lit "AT+VRX") (lit "CONNECT") w in
  mkWorld (rx w) (tx w) (S (ticks w)).

(** The start time [record_call] takes. *)
Definition record_start (time_time : nat -> Q) (w : World) : Q :=
  time_time (Nat.pred (ticks (record_setup w))).

(** What [record_call] and [hang_up] write, command by command. *)
Definition record_setup_commands : list str :=
  [lit "AT+FCLASS=8"; lit "AT+VSM=1,8000,0,0"; lit "AT+VLS=1";
   lit "AT+VSD=128,50"; lit "AT+VRX"].
Definition hang_up_commands : list str := [lit "AT+FCLASS=8"; lit "ATH"].

(** An inbound call of three blocks of 1024 bytes, the third with
    [0x10 0x03] at offset 500, on a modem that answers every command as
    expected; a clock that stands still; the class object. *)
Definition block1 : bytes := repeat "a"%char 1024.
Definition block2 : bytes := repeat "b"%char 1024.
Definition block3 : bytes :=
  repeat "c"%char 500 ++ [DLE; ETX] ++ repeat "c"%char 522.
Definition call_world : World :=
  mkWorld (script [lit "AT+FCLASS=8"; lit "AT+VSM=1,8000,0,0"; lit "AT+VLS=1";
                   lit "AT+VSD=128,50"]
           ++ [lit "AT+VRX" ++ CRCRLF; lit "CONNECT" ++ CRLF]
           ++ [block1; block2; block3]
           ++ script hang_up_commands)
          [] 0.
Definition still_clock (_ : nat) : Q := 0%Q.
Definition the_class : ClassObject := mkClass (noon 0).
Definition call_recording : Recording :=
  mkRecording (lit "17-05-2020_12:00:00_unknown.wav") 1 1 8000
              (block1 ++ block2) (lit "17-05-2020_12:00:00_unknown.mp3").
Definition call_end_world : World :=
  mkWorld [] (map (fun c => c ++ [CR]) (record_setup_commands ++ hang_up_commands)) 3.

(** A calendar clock that advances one second per reading, and the
    scenario above entered after [k] clock readings. *)
Definition calendar (k : nat) : DateTime := mkDateTime 2020 5 17 12 0 k.
Definition call_world_at (k : nat) : World := mkWorld (rx call_world) [] k.
Definition call_end_world_at (k : nat) : World :=
  mkWorld [] (tx call_end_world) (k + 3).

(** A wave object of one block of 1024 one-byte frames at 8000 Hz, a
    modem that answers [AT+VTX], and a clock that advances a quarter of a
    second per reading. *)
Definition one_block_wav : Wave_read := mkWave 1024 8000 1 block1.
Definition play_world : World :=
  mkWorld [lit "AT+VTX" ++ CRCRLF; lit "OK" ++ CRLF] [] 0.
Definition quarter_clock (k : nat) : Q := (inject_Z (Z.of_nat k) / 4)%Q.

(** * Properties *)

(** ** Byte strings *)

Lemma bytes_eqb_eq (x y : list ascii) : bytes_eqb x y = true <-> x = y.
Proof.
  revert y; induction x as [|a x IH]; intros [|c y]; simpl.
  - tauto.
  - split; discriminate.
  - split; discriminate.
  - rewrite andb_true_iff, Ascii.eqb_eq, IH.
    split; [intros [-> ->]; reflexivity | intros [= -> ->]; auto].
Qed.

Lemma bytes_eqb_refl (x : list ascii) : bytes_eqb x x = true.
Proof. apply bytes_eqb_eq; reflexivity. Qed.

Lemma bytes_eqb_neq (x y : list ascii) : bytes_eqb x y = false <-> x <> y.
Proof.
  rewrite <- bytes_eqb_eq. destruct (bytes_eqb x y); split; congruence.
Qed.

Lemma startswith_iff (p x : list ascii) :
  startswith p x = true <-> exists s, x = p ++ s.
Proof.
  revert x; induction p as [|a p IH]; intros x; simpl.
  - split; [exists x; reflexivity | reflexivity].
  - destruct x as [|c x].
    + split; [discriminate | intros [s Hs]; discriminate].
    + rewrite andb_true_iff, Ascii.eqb_eq, IH. split.
      * intros [-> [s ->]]. exists s; reflexivity.
      * intros [s [= -> ->]]. split; [reflexivity | exists s; reflexivity].
Qed.

Lemma contains_iff (p x : list ascii) :
  contains p x = true <-> exists pre post, x = pre ++ p ++ post.
Proof.
  induction x as [|c x IH].
  - simpl. rewrite orb_false_r, startswith_iff. split.
    + intros [s Hs]. exists [], s. exact Hs.
    + intros [pre [post H]]. destruct pre; [exists post; exact H | discriminate].
  - cbn [contains]. rewrite orb_true_iff, startswith_iff, IH. split.
    + intros [[s Hs] | [pre [post H]]].
      * exists [], s. exact Hs.
      * exists (c :: pre), post. rewrite H; reflexivity.
    + intros [[|a pre] [post H]].
      * left. exists post. exact H.
      * right. injection H as -> ->. exists pre, post; reflexivity.
Qed.

(** ** CommandChannel *)

Lemma is_stray_cases (resp : bytes) :
  is_stray resp = true <-> resp = CRLF \/ resp = lit "OK" ++ CRLF.
Proof.
  unfold is_stray. rewrite orb_true_iff, !bytes_eqb_eq. reflexivity.
Qed.

(** The echo of a command is never mistaken for a stray line. *)
Lemma echo_not_stray (cmd : str) : is_stray (cmd ++ CRCRLF) = false.
Proof.
  destruct (is_stray (cmd ++ CRCRLF)) eqn:E; [|reflexivity].
  apply is_stray_cases in E.
  destruct E as [E | E]; apply (f_equal (@rev ascii)) in E;
    rewrite rev_app_distr in E; cbv in E; discriminate.
Qed.

Lemma skip_stray_substantive (resp : bytes) (pending : list bytes) :
  is_stray resp = false -> skip_stray resp pending = (resp, pending).
Proof. intros H. destruct pending; simpl; rewrite H; reflexivity. Qed.

Lemma next_substantive_stray (l : bytes) (pending : list bytes) :
  is_stray l = true -> next_substantive (l :: pending) = next_substantive pending.
Proof. intros H. destruct pending; simpl; rewrite H; reflexivity. Qed.

Lemma next_substantive_skips (skips pending : list bytes) :
  Forall (fun l => is_stray l = true) skips ->
  next_substantive (skips ++ pending) = next_substantive pending.
Proof.
  induction 1 as [|l skips Hl _ IH]; [reflexivity|].
  rewrite <- app_comm_cons, next_substantive_stray; assumption.
Qed.

Lemma next_substantive_found (l : bytes) (pending : list bytes) :
  is_stray l = false -> next_substantive (l :: pending) = (l, pending).
Proof. intros H. simpl. apply skip_stray_substantive, H. Qed.

Lemma readline_while_stray (w : World) :
  (resp <- con_readline ;; while_stray resp) w =
  (fst (next_substantive (rx w)),
   mkWorld (snd (next_substantive (rx w))) (tx w) (ticks w)).
Proof.
  unfold bind, con_readline, while_stray. destruct w as [pending sent k]; simpl.
  destruct pending as [|l rest]; simpl.
  - reflexivity.
  - destruct (skip_stray l rest); reflexivity.
Qed.

(** The skipping loop is the [while] of the source: it turns once more
    exactly when [resp] is a stray line. *)
Lemma while_stray_unfold (resp : bytes) (w : World) :
  while_stray resp w =
  if is_stray resp then (r <- con_readline ;; while_stray r) w
  else ret resp w.
Proof.
  unfold bind, con_readline, while_stray, ret. destruct w as [pending sent k]; simpl.
  destruct pending as [|l rest]; simpl; destruct (is_stray resp); reflexivity.
Qed.

(** [__at] in one step: write, find the first substantive line, compare
    it with the echo, and only then read and compare one more line. *)
Lemma at_run (cmd expected : str) (w : World) :
  __at cmd expected w =
  let sent := tx w ++ [cmd ++ [CR]] in
  let (resp, pending) := next_substantive (rx w) in
  if bytes_eqb resp (cmd ++ CRCRLF) then
    match pending with
    | [] => (false, mkWorld [] sent (ticks w))
    | l :: rest => (bytes_eqb l (expected ++ CRLF), mkWorld rest sent (ticks w))
    end
  else (false, mkWorld pending sent (ticks w)).
Proof.
  unfold __at. unfold bind at 1. unfold con_write at 1.
  unfold bind at 1.
  pose proof (readline_while_stray (mkWorld (rx w) (tx w ++ [cmd ++ [CR]]) (ticks w))) as H.
  unfold bind at 1 in H. cbn [rx tx ticks] in H.
  destruct (con_readline _) as [r0 w0] eqn:E0.
  unfold bind at 1.
  destruct (while_stray r0 w0) as [r1 w1] eqn:E1.
  injection H as -> ->.
  destruct (next_substantive (rx w)) as [resp pending]; cbn [fst snd].
  destruct (bytes_eqb resp (cmd ++ CRCRLF)); cbn [negb]; [|reflexivity].
  unfold bind, con_readline, ret; cbn [rx tx ticks].
  destruct pending as [|l rest].
  - destruct expected; reflexivity.
  - destruct (bytes_eqb l (expected ++ CRLF)); reflexivity.
Qed.

(** C1.  Whatever stray lines come first, [__at cmd expected] answers
    [True] when the transport then yields exactly [cmd + CR CR LF] and
    [expected + CR LF]; when the first substantive line or the line after
    it deviates, it answers [False]; and on an echo mismatch it answers
    [False] at once: the line after the mismatched one is still unread. *)
Theorem at_true_iff_echo_then_result
    (cmd expected : str) (skips : list bytes) (rest sent : list bytes) (k : nat) :
  Forall (fun l => is_stray l = true) skips ->
  let sent' := sent ++ [cmd ++ [CR]] in
  __at cmd expected
    (mkWorld (skips ++ (cmd ++ CRCRLF) :: (expected ++ CRLF) :: rest) sent k)
  = (true, mkWorld rest sent' k)
  /\ (forall l1 l2 : bytes,
        is_stray l1 = false ->
        l1 <> cmd ++ CRCRLF \/ l2 <> expected ++ CRLF ->
        fst (__at cmd expected (mkWorld (skips ++ l1 :: l2 :: rest) sent k))
        = false)
  /\ (forall l1 : bytes,
        is_stray l1 = false ->
        l1 <> cmd ++ CRCRLF ->
        __at cmd expected (mkWorld (skips ++ l1 :: rest) sent k)
        = (false, mkWorld rest sent' k)).
Proof.
  intros Hskips sent'. repeat split.
  - rewrite at_run; cbn [rx tx ticks].
    rewrite (next_substantive_skips _ _ Hskips),
      (next_substantive_found _ _ (echo_not_stray cmd)).
    rewrite !bytes_eqb_refl. reflexivity.
  - intros l1 l2 Hl1 Hdev.
    rewrite at_run; cbn [rx tx ticks].
    rewrite (next_substantive_skips _ _ Hskips), (next_substantive_found _ _ Hl1).
    destruct (bytes_eqb l1 (cmd ++ CRCRLF)) eqn:E1; [|reflexivity].
    apply bytes_eqb_eq in E1. destruct Hdev as [H | H]; [contradiction|].
    cbn [fst]. apply bytes_eqb_neq, H.
  - intros l1 Hl1 Hne.
    rewrite at_run; cbn [rx tx ticks].
    rewrite (next_substantive_skips _ _ Hskips), (next_substantive_found _ _ Hl1).
    apply bytes_eqb_neq in Hne. rewrite Hne. reflexivity.
Qed.

Lemma at_true_iff_echo_then_result_witness :
  __at (lit "ATE1") (lit "OK")
    (mkWorld [CRLF; lit "OK" ++ CRLF; lit "ATE1" ++ CRCRLF; lit "OK" ++ CRLF;
              lit "RING" ++ CRLF] [] 0)
  = (true, mkWorld [lit "RING" ++ CRLF] [lit "ATE1" ++ [CR]] 0).
Proof.
  apply (proj1 (at_true_iff_echo_then_result (lit "ATE1") (lit "OK")
                  [CRLF; lit "OK" ++ CRLF] [lit "RING" ++ CRLF] [] 0
                  ltac:(repeat constructor))).
Defined.

(** C7.  Any number of leading lines that are exactly [CR LF] or
    [OK CR LF] is skipped before the echo is matched: the call behaves as
    if they had not been there, while a line that is neither of the two
    and is not the echo ends the call with [False].  Once the echo has
    been matched nothing is skipped: the very next line is the one
    compared with [expected + CR LF], so a stray line there makes the call
    fail even when the expected line follows it. *)
Theorem at_skips_only_before_echo
    (cmd expected : str) (skips pending sent : list bytes) (k : nat) :
  Forall (fun l => l = CRLF \/ l = lit "OK" ++ CRLF) skips ->
  __at cmd expected (mkWorld (skips ++ pending) sent k)
  = __at cmd expected (mkWorld pending sent k)
  /\ (forall l : bytes,
        l <> CRLF -> l <> lit "OK" ++ CRLF -> l <> cmd ++ CRCRLF ->
        __at cmd expected (mkWorld (skips ++ l :: pending) sent k)
        = (false, mkWorld pending (sent ++ [cmd ++ [CR]]) k))
  /\ (forall l : bytes,
        __at cmd expected
          (mkWorld (skips ++ (cmd ++ CRCRLF) :: l :: pending) sent k)
        = (bytes_eqb l (expected ++ CRLF),
           mkWorld pending (sent ++ [cmd ++ [CR]]) k))
  /\ (forall l : bytes,
        l = CRLF \/ l = lit "OK" ++ CRLF ->
        l <> expected ++ CRLF ->
        __at cmd expected
          (mkWorld (skips ++ (cmd ++ CRCRLF) :: l :: (expected ++ CRLF) :: pending)
                   sent k)
        = (false, mkWorld ((expected ++ CRLF) :: pending)
                          (sent ++ [cmd ++ [CR]]) k)).
Proof.
  intros Hskips.
  assert (Hs : Forall (fun l => is_stray l = true) skips).
  { eapply Forall_impl; [|exact Hskips]. intros l Hl. apply is_stray_cases, Hl. }
  assert (Hecho : forall l rest,
    __at cmd expected (mkWorld (skips ++ (cmd ++ CRCRLF) :: l :: rest) sent k)
    = (bytes_eqb l (expected ++ CRLF), mkWorld rest (sent ++ [cmd ++ [CR]]) k)).
  { intros l rest. rewrite at_run; cbn [rx tx ticks].
    rewrite (next_substantive_skips _ _ Hs),
      (next_substantive_found _ _ (echo_not_stray cmd)).
    rewrite bytes_eqb_refl. reflexivity. }
  repeat split.
  - rewrite !at_run; cbn [rx tx ticks].
    rewrite (next_substantive_skips _ _ Hs). reflexivity.
  - intros l H1 H2 H3.
    assert (Hl : is_stray l = false).
    { destruct (is_stray l) eqn:E; [|reflexivity].
      apply is_stray_cases in E. tauto. }
    rewrite at_run; cbn [rx tx ticks].
    rewrite (next_substantive_skips _ _ Hs), (next_substantive_found _ _ Hl).
    apply bytes_eqb_neq in H3. rewrite H3. reflexivity.
  - exact (fun l => Hecho l pending).
  - intros l _ Hne. rewrite Hecho.
    apply bytes_eqb_neq in Hne. rewrite Hne. reflexivity.
Qed.

Lemma at_skips_only_before_echo_witness :
  __at (lit "AT+VRX") (lit "CONNECT")
    (mkWorld [lit "OK" ++ CRLF; CRLF; CRLF;
              lit "AT+VRX" ++ CRCRLF; lit "OK" ++ CRLF; lit "CONNECT" ++ CRLF]
             [] 0)
  = (false, mkWorld [lit "CONNECT" ++ CRLF] [lit "AT+VRX" ++ [CR]] 0).
Proof.
  apply (proj2 (proj2 (proj2
           (at_skips_only_before_echo (lit "AT+VRX") (lit "CONNECT")
              [lit "OK" ++ CRLF; CRLF; CRLF] [] [] 0
              ltac:(repeat first [apply Forall_nil | apply Forall_cons;
                [first [left; reflexivity | right; reflexivity]|]]))))
         (lit "OK" ++ CRLF)); [right; reflexivity | discriminate].
Defined.

(** ** CallDetector *)

Lemma dle_before_last (data pre post : bytes) (d a c : ascii) :
  data ++ [d] = pre ++ a :: c :: post -> In a data.
Proof.
  revert data; induction pre as [|p pre IH]; intros [|x data] H; simpl in H.
  - discriminate.
  - injection H as -> _. left; reflexivity.
  - injection H as _ H. destruct pre; discriminate.
  - injection H as _ H. right. apply IH, H.
Qed.

(** C4.  [__detect_end data] is [True] exactly when [data] holds one of
    the byte pairs 0x10 0x73, 0x10 0x62, 0x10 0x03 somewhere; in
    particular when the pair is the last two bytes; and it is [False] on a
    buffer whose only 0x10 is its last byte. *)
Theorem detect_end_iff_marker :
  (forall data : bytes,
     __detect_end data = true <->
     exists pre c post,
       data = pre ++ [ascii_of_nat 16; c] ++ post
       /\ (c = ascii_of_nat 115 \/ c = ascii_of_nat 98 \/ c = ascii_of_nat 3))
  /\ (forall (pre : bytes) (c : ascii),
        c = ascii_of_nat 115 \/ c = ascii_of_nat 98 \/ c = ascii_of_nat 3 ->
        __detect_end (pre ++ [ascii_of_nat 16; c]) = true)
  /\ (forall data : bytes,
        ~ In (ascii_of_nat 16) data ->
        __detect_end (data ++ [ascii_of_nat 16]) = false).
Proof.
  assert (Hiff : forall data : bytes,
     __detect_end data = true <->
     exists pre c post,
       data = pre ++ [ascii_of_nat 16; c] ++ post
       /\ (c = ascii_of_nat 115 \/ c = ascii_of_nat 98 \/ c = ascii_of_nat 3)).
  { intros data. unfold __detect_end.
    rewrite !orb_true_iff, !contains_iff. split.
    - intros [[[pre [post H]] | [pre [post H]]] | [pre [post H]]].
      + exists pre, (ascii_of_nat 115), post. split; [exact H | auto].
      + exists pre, (ascii_of_nat 98), post. split; [exact H | auto].
      + exists pre, (ascii_of_nat 3), post. split; [exact H | auto].
    - intros [pre [c [post [H [-> | [-> | ->]]]]]].
      + left; left. exists pre, post. exact H.
      + left; right. exists pre, post. exact H.
      + right. exists pre, post. exact H. }
  split; [exact Hiff | split].
  - intros pre c Hc. apply Hiff. exists pre, c, []. split; [reflexivity | exact Hc].
  - intros data Hno.
    destruct (__detect_end (data ++ [ascii_of_nat 16])) eqn:E; [|reflexivity].
    apply Hiff in E. destruct E as [pre [c [post [H _]]]].
    exfalso. apply Hno. eapply dle_before_last. exact H.
Qed.

Lemma detect_end_iff_marker_witness :
  __detect_end (lit "voice" ++ [ascii_of_nat 16]) = false.
Proof.
  apply (proj2 (proj2 detect_end_iff_marker) (lit "voice")).
  simpl. intros [H | [H | [H | [H | [H | []]]]]]; discriminate.
Defined.

(** ** Construction *)

Lemma at_ok_scripted (c : str) (rest sent : list bytes) (k : nat) :
  at_ok c (mkWorld ((c ++ CRCRLF) :: (lit "OK" ++ CRLF) :: rest) sent k)
  = (true, mkWorld rest (sent ++ [c ++ [CR]]) k).
Proof.
  unfold at_ok. rewrite at_run; cbn [rx tx ticks].
  rewrite (next_substantive_found _ _ (echo_not_stray c)).
  rewrite !bytes_eqb_refl. reflexivity.
Qed.

Lemma at_ok_bad_echo (c : str) (l : bytes) (rest sent : list bytes) (k : nat) :
  is_stray l = false -> l <> c ++ CRCRLF ->
  at_ok c (mkWorld (l :: rest) sent k)
  = (false, mkWorld rest (sent ++ [c ++ [CR]]) k).
Proof.
  intros Hl Hne. unfold at_ok. rewrite at_run; cbn [rx tx ticks].
  rewrite (next_substantive_found _ _ Hl).
  apply bytes_eqb_neq in Hne. rewrite Hne. reflexivity.
Qed.

Lemma all_ok_scripted (cmds : list str) (rest sent : list bytes) (k : nat) :
  all_ok cmds (mkWorld (script cmds ++ rest) sent k)
  = Some (mkWorld rest (sent ++ map (fun c => c ++ [CR]) cmds) k).
Proof.
  revert sent; induction cmds as [|c cmds IH]; intros sent.
  - simpl. rewrite app_nil_r. reflexivity.
  - cbn [all_ok script flat_map]. rewrite <- !app_comm_cons. cbn [app].
    rewrite at_ok_scripted. fold (script cmds). rewrite IH.
    cbn [map]. rewrite <- app_assoc. reflexivity.
Qed.

Lemma all_ok_bad_echo (pre post : list str) (c : str) (l : bytes)
    (rest sent : list bytes) (k : nat) :
  is_stray l = false -> l <> c ++ CRCRLF ->
  all_ok (pre ++ c :: post) (mkWorld (script pre ++ l :: rest) sent k) = None.
Proof.
  intros Hl Hne. revert sent; induction pre as [|p pre IH]; intros sent.
  - cbn [all_ok script flat_map app]. rewrite (at_ok_bad_echo _ _ _ _ _ Hl Hne).
    reflexivity.
  - change ((p :: pre) ++ c :: post) with (p :: (pre ++ c :: post)).
    cbn [all_ok script flat_map]. rewrite <- !app_comm_cons. cbn [app].
    rewrite at_ok_scripted. fold (script pre). apply IH.
Qed.

Lemma init_all_ok (w : World) :
  match all_ok startup_commands w with
  | Some w' => init true w = inr w'
  | None => exists msg, init true w = inl (CouldNotInitializeException msg)
  end.
Proof.
  unfold init, startup_commands, all_ok. cbn [negb].
  destruct (at_ok (lit "ATE1") w) as [[] w1]; cbn [negb]; [|eauto].
  destruct (at_ok (lit "AT") w1) as [[] w2]; cbn [negb]; [|eauto].
  destruct (at_ok (lit "AT&F0") w2) as [[] w3]; cbn [negb]; [|eauto].
  destruct (at_ok (lit "ATV1") w3) as [[] w4]; cbn [negb]; [|eauto].
  destruct (at_ok (lit "ATE1") w4) as [[] w5]; cbn [negb]; [|eauto].
  destruct (at_ok (lit "AT+VCID=1") w5) as [[] w6]; cbn [negb]; [|eauto].
  reflexivity.
Qed.

(** C6.  [__init__] raises [CouldNotInitializeException], and yields no
    handle, when the port cannot be opened or when one of the six start-up
    commands, run in order, does not get its expected response, and only
    then; no other exception is raised.  On a transport scripted with the
    echo and [OK] of the six commands construction succeeds; with a
    mismatched echo in place of that of any one of them it fails with
    [CouldNotInitializeException]. *)
Theorem init_fails_iff_open_or_command_fails :
  (forall w : World,
     init false w
     = inl (CouldNotInitializeException "Could not open a serial connection"))
  /\ (forall (port_opens : bool) (w : World),
        (exists w', init port_opens w = inr w'
                    /\ port_opens = true /\ all_ok startup_commands w = Some w')
        \/ (exists msg, init port_opens w = inl (CouldNotInitializeException msg)
                        /\ (port_opens = false \/ all_ok startup_commands w = None)))
  /\ (forall (rest sent : list bytes) (k : nat),
        init true (mkWorld (script startup_commands ++ rest) sent k)
        = inr (mkWorld rest (sent ++ map (fun c => c ++ [CR]) startup_commands) k))
  /\ (forall (i : nat) (l : bytes) (rest sent : list bytes) (k : nat),
        i < List.length startup_commands ->
        is_stray l = false ->
        l <> nth i startup_commands [] ++ CRCRLF ->
        exists msg,
          init true
            (mkWorld (script (firstn i startup_commands) ++ l :: rest) sent k)
          = inl (CouldNotInitializeException msg)).
Proof.
  split; [|split; [|split]].
  - reflexivity.
  - intros [|] w.
    + pose proof (init_all_ok w) as H.
      destruct (all_ok startup_commands w) as [w'|].
      * left. exists w'. auto.
      * right. destruct H as [msg H]. exists msg. auto.
    + right. eexists. split; [reflexivity | auto].
  - intros rest sent k.
    pose proof (init_all_ok (mkWorld (script startup_commands ++ rest) sent k)) as H.
    rewrite all_ok_scripted in H. exact H.
  - intros i l rest sent k Hi Hl Hne.
    assert (Hsk : skipn i startup_commands
                  = nth i startup_commands [] :: skipn (S i) startup_commands).
    { do 6 (destruct i as [|i]; [reflexivity|]).
      simpl in Hi. lia. }
    pose proof (all_ok_bad_echo (firstn i startup_commands)
                  (skipn (S i) startup_commands) _ _ rest sent k Hl Hne) as Hnone.
    rewrite <- Hsk, firstn_skipn in Hnone.
    pose proof (init_all_ok
      (mkWorld (script (firstn i startup_commands) ++ l :: rest) sent k)) as H.
    rewrite Hnone in H. exact H.
Qed.

(** ** The ring loop *)

Lemma ring_count_nonneg (lines : list bytes) : (0 <= ring_count lines)%Z.
Proof.
  induction lines as [|l lines IH]; simpl; [lia|].
  destruct (is_ring_line l); lia.
Qed.

Lemma ring_count_app (xs ys : list bytes) :
  ring_count (xs ++ ys) = (ring_count xs + ring_count ys)%Z.
Proof. induction xs as [|x xs IH]; simpl; [reflexivity | rewrite IH; lia]. Qed.

(** One turn of the loop on a decodable line without the caller-number
    token. *)
Lemma ring_loop_step (max rings : Z) (l : bytes) (rest : list bytes) :
  utf8_valid l = true ->
  is_nmbr_line l = false ->
  ring_loop max rings (l :: rest) =
  if is_ring_line l then
    if (rings + 1 >=? max)%Z then Some (inr ([], rest))
    else ring_loop max (rings + 1) rest
  else ring_loop max rings rest.
Proof.
  unfold is_nmbr_line, is_ring_line, line_data. intros Hv Hn.
  cbn [ring_loop]. unfold decode. rewrite Hv, Hn.
  destruct (bytes_eqb (replace CRLF [] l) []) eqn:E; cbn [negb].
  - apply bytes_eqb_eq in E. rewrite E. reflexivity.
  - reflexivity.
Qed.

(** A line that is not valid UTF-8 makes the loop raise. *)
Lemma ring_loop_undecodable (max rings : Z) (l : bytes) (rest : list bytes) :
  utf8_valid l = false ->
  ring_loop max rings (l :: rest) = Some (inl UnicodeDecodeError).
Proof. intros Hv. cbn [ring_loop]. unfold decode. rewrite Hv. reflexivity. Qed.

Lemma ring_loop_spec (max : Z) (lines : list bytes) :
  Forall (fun l => utf8_valid l = true /\ is_nmbr_line l = false) lines ->
  forall (rings : Z) (number : str) (rest : list bytes),
    ring_loop max rings lines = Some (inr (number, rest)) <->
    number = [] /\
    exists pre l,
      lines = pre ++ l :: rest /\ is_ring_line l = true
      /\ (max <= rings + ring_count pre + 1)%Z
      /\ (ring_count pre = 0 \/ rings + ring_count pre < max)%Z.
Proof.
  induction 1 as [|l0 lines [Hv Hn] _ IH]; intros rings number rest.
  - simpl. split; [discriminate|].
    intros [_ [pre [l [H _]]]]. destruct pre; discriminate.
  - rewrite (ring_loop_step _ _ _ _ Hv Hn).
    destruct (is_ring_line l0) eqn:Hr0.
    + destruct (rings + 1 >=? max)%Z eqn:Hge.
      * apply Z.geb_le in Hge. split.
        -- intros [= <- <-]. split; [reflexivity|].
           exists [], l0. simpl. repeat split; auto; lia.
        -- intros [-> [[|p pre] [l [Heq [Hl [Hmax Hbefore]]]]]].
           ++ injection Heq as <- <-. reflexivity.
           ++ injection Heq as <- _. exfalso.
              pose proof (ring_count_nonneg pre).
              simpl in Hbefore. rewrite Hr0 in Hbefore. lia.
      * assert (Hlt : (rings + 1 < max)%Z).
        { destruct (Z.geb_spec (rings + 1) max) as [?|?]; [discriminate | lia]. }
        rewrite IH. split.
        -- intros [-> [pre [l [-> [Hl [Hmax Hbefore]]]]]]. split; [reflexivity|].
           exists (l0 :: pre), l. simpl. rewrite Hr0.
           repeat split; auto; lia.
        -- intros [-> [[|p pre] [l [Heq [Hl [Hmax Hbefore]]]]]].
           ++ simpl in Hmax. lia.
           ++ injection Heq as <- ->. split; [reflexivity|].
              exists pre, l. simpl in Hmax, Hbefore. rewrite Hr0 in Hmax, Hbefore.
              pose proof (ring_count_nonneg pre).
              repeat split; auto; lia.
    + rewrite IH. split.
      * intros [-> [pre [l [-> [Hl [Hmax Hbefore]]]]]]. split; [reflexivity|].
        exists (l0 :: pre), l. simpl. rewrite Hr0.
        repeat split; auto; lia.
      * intros [-> [[|p pre] [l [Heq [Hl [Hmax Hbefore]]]]]].
        -- injection Heq as <- _. congruence.
        -- injection Heq as <- ->. split; [reflexivity|].
           exists pre, l. simpl in Hmax, Hbefore. rewrite Hr0 in Hmax, Hbefore.
           repeat split; auto; lia.
Qed.

(** On decodable lines without the caller-number token the loop raises
    nothing. *)
Lemma ring_loop_no_raise (max : Z) (lines : list bytes) :
  Forall (fun l => utf8_valid l = true /\ is_nmbr_line l = false) lines ->
  forall (rings : Z) (e : exn), ring_loop max rings lines <> Some (inl e).
Proof.
  induction 1 as [|l0 lines [Hv Hn] _ IH]; intros rings e.
  - discriminate.
  - rewrite (ring_loop_step _ _ _ _ Hv Hn).
    destruct (is_ring_line l0); [destruct (rings + 1 >=? max)%Z|];
      try apply IH. discriminate.
Qed.

Lemma wait_call_spec (datetime_now : nat -> DateTime) (max : Z) (w : World) :
  Forall (fun l => utf8_valid l = true) (rx w) ->
  Forall (fun l => is_nmbr_line l = false) (rx w) ->
  (forall (r : DateTime * str) (w' : World),
     wait_call datetime_now max w = Some (inr (r, w')) <->
     exists pre l rest,
       rx w = pre ++ l :: rest /\ is_ring_line l = true
       /\ (max <= ring_count pre + 1)%Z
       /\ (ring_count pre = 0 \/ ring_count pre < max)%Z
       /\ r = (datetime_now (ticks w), [])
       /\ w' = mkWorld rest (tx w) (S (ticks w)))
  /\ (forall e : exn, wait_call datetime_now max w <> Some (inl e)).
Proof.
  intros Hv Hn.
  pose proof (Forall_and Hv Hn) as Hvn.
  pose proof (ring_loop_spec max (rx w) Hvn 0) as Hspec.
  pose proof (ring_loop_no_raise max (rx w) Hvn 0) as Hno.
  unfold wait_call, date_now; cbn [rx tx ticks].
  destruct (ring_loop max 0 (rx w)) as [[e | [number rest]]|].
  - exfalso. exact (Hno e eq_refl).
  - split; [|discriminate]. intros r w'.
    destruct (proj1 (Hspec number rest) eq_refl)
      as [-> [pre [l [Heq [Hl [Hmax Hbefore]]]]]].
    split.
    + intros [= <- <-]. exists pre, l, rest. repeat split; auto.
    + intros [pre' [l' [rest' [Heq' [Hl' [Hmax' [Hbefore' [-> ->]]]]]]]].
      assert (Hsome : Some (@inr exn _ (@nil ascii, rest))
                      = Some (inr (@nil ascii, rest'))).
      { apply Hspec. split; [reflexivity|]. exists pre', l'. auto. }
      injection Hsome as <-. reflexivity.
  - split; [|discriminate]. intros r w'. split; [discriminate|].
    intros [pre [l [rest [Heq [Hl [Hmax [Hbefore _]]]]]]].
    assert (Hsome : @None (exn + str * list bytes) = Some (inr ([], rest))).
    { apply Hspec. split; [reflexivity|]. exists pre, l. auto. }
    discriminate.
Qed.

(** C5.  On input of decodable lines without an [NMBR] line, [wait_call]
    returns exactly at the line holding the ring token at which the ring
    counter, one count per such line, reaches [max_rings_ignore_cid], and
    not at an earlier line; what it returns is the record with the empty
    number, and it raises nothing.  For a threshold of at least one the
    counter then equals the threshold. *)
Theorem wait_call_returns_when_rings_reach_max
    (datetime_now : nat -> DateTime) (max_rings_ignore_cid : Z) (w : World) :
  Forall (fun l => utf8_valid l = true) (rx w) ->
  Forall (fun l => is_nmbr_line l = false) (rx w) ->
  (forall (r : DateTime * str) (w' : World),
     wait_call datetime_now max_rings_ignore_cid w = Some (inr (r, w')) <->
     exists pre l rest,
       rx w = pre ++ l :: rest /\ is_ring_line l = true
       /\ (max_rings_ignore_cid <= ring_count (pre ++ [l]))%Z
       /\ (ring_count pre = 0 \/ ring_count pre < max_rings_ignore_cid)%Z
       /\ r = (datetime_now (ticks w), [])
       /\ w' = mkWorld rest (tx w) (S (ticks w)))
  /\ (forall e : exn,
        wait_call datetime_now max_rings_ignore_cid w <> Some (inl e))
  /\ ((1 <= max_rings_ignore_cid)%Z ->
      forall (r : DateTime * str) (w' : World),
        wait_call datetime_now max_rings_ignore_cid w = Some (inr (r, w')) ->
        exists pre l rest,
          rx w = pre ++ l :: rest
          /\ ring_count (pre ++ [l]) = max_rings_ignore_cid
          /\ (ring_count pre < max_rings_ignore_cid)%Z
          /\ snd r = []
          /\ rx w' = rest).
Proof.
  intros Hv Hn.
  destruct (wait_call_spec datetime_now max_rings_ignore_cid w Hv Hn)
    as [Hspec Hno].
  assert (Hlast : forall pre l, is_ring_line l = true ->
            ring_count (pre ++ [l]) = (ring_count pre + 1)%Z).
  { intros pre l Hl. rewrite ring_count_app. simpl. rewrite Hl. lia. }
  split; [|split; [exact Hno|]].
  - intros r w'. rewrite Hspec. split.
    + intros [pre [l [rest [Heq [Hl [Hmax H]]]]]].
      exists pre, l, rest. rewrite (Hlast _ _ Hl). auto.
    + intros [pre [l [rest [Heq [Hl [Hmax H]]]]]].
      exists pre, l, rest. rewrite (Hlast _ _ Hl) in Hmax. auto.
  - intros Hpos r w' Hret.
    apply Hspec in Hret.
    destruct Hret as [pre [l [rest [Heq [Hl [Hmax [Hbefore [-> ->]]]]]]]].
    exists pre, l, rest. rewrite (Hlast _ _ Hl).
    repeat split; auto; lia.
Qed.

Lemma wait_call_returns_when_rings_reach_max_witness :
  wait_call noon 2 (mkWorld [RING; BLANK; RING; RING] [] 0)
  = Some (inr ((noon 0, []), mkWorld [RING] [] 1)).
Proof.
  apply (proj1 (wait_call_returns_when_rings_reach_max noon 2
                  (mkWorld [RING; BLANK; RING; RING] [] 0)
                  ltac:(repeat constructor)
                  ltac:(repeat constructor))).
  exists [RING; BLANK], RING, [RING].
  split; [reflexivity|]. split; [reflexivity|].
  split; [apply Z.leb_le; reflexivity|].
  split; [right; apply Z.ltb_lt; reflexivity|].
  split; reflexivity.
Defined.

(** C9.  With [max_rings_ignore_cid <= 0], on decodable lines without an
    [NMBR] line, [wait_call] does not return before a line holding the
    ring token has been read: it returns the empty-number record at the
    first such line, and on input without one it neither returns nor
    raises. *)
Theorem wait_call_nonpositive_max_waits_for_ring
    (datetime_now : nat -> DateTime) (max_rings_ignore_cid : Z) (w : World) :
  (max_rings_ignore_cid <= 0)%Z ->
  Forall (fun l => utf8_valid l = true) (rx w) ->
  Forall (fun l => is_nmbr_line l = false) (rx w) ->
  (forall (r : DateTime * str) (w' : World),
     wait_call datetime_now max_rings_ignore_cid w = Some (inr (r, w')) <->
     exists pre l rest,
       rx w = pre ++ l :: rest
       /\ Forall (fun x => is_ring_line x = false) pre
       /\ is_ring_line l = true
       /\ r = (datetime_now (ticks w), [])
       /\ w' = mkWorld rest (tx w) (S (ticks w)))
  /\ (Forall (fun x => is_ring_line x = false) (rx w) ->
      wait_call datetime_now max_rings_ignore_cid w = None).
Proof.
  intros Hmax Hv Hn.
  destruct (wait_call_spec datetime_now max_rings_ignore_cid w Hv Hn)
    as [Hspec Hno].
  assert (Hzero : forall pre, ring_count pre = 0%Z <->
                    Forall (fun x => is_ring_line x = false) pre).
  { induction pre as [|x pre IH]; simpl.
    - split; auto.
    - pose proof (ring_count_nonneg pre).
      destruct (is_ring_line x) eqn:E; split.
      + lia.
      + intros HF. apply Forall_inv in HF. congruence.
      + intros H0. constructor; [exact E | apply IH; lia].
      + intros HF. apply Forall_inv_tail in HF. apply IH in HF. lia. }
  assert (Hiff : forall r w',
     wait_call datetime_now max_rings_ignore_cid w = Some (inr (r, w')) <->
     exists pre l rest,
       rx w = pre ++ l :: rest
       /\ Forall (fun x => is_ring_line x = false) pre
       /\ is_ring_line l = true
       /\ r = (datetime_now (ticks w), [])
       /\ w' = mkWorld rest (tx w) (S (ticks w))).
  { intros r w'. rewrite Hspec. split.
    - intros [pre [l [rest [Heq [Hl [_ [Hbefore H]]]]]]].
      exists pre, l, rest. pose proof (ring_count_nonneg pre).
      repeat split; try tauto. apply Hzero. lia.
    - intros [pre [l [rest [Heq [Hpre [Hl H]]]]]].
      exists pre, l, rest. apply Hzero in Hpre.
      repeat split; try tauto; lia. }
  split; [exact Hiff|].
  intros Hnone.
  destruct (wait_call datetime_now max_rings_ignore_cid w)
    as [[e | [r w']]|] eqn:E; [| |reflexivity].
  - exfalso. exact (Hno e eq_refl).
  - destruct (proj1 (Hiff r w') eq_refl) as [pre [l [rest [Heq [_ [Hl _]]]]]].
    rewrite Heq in Hnone. apply Forall_app in Hnone. destruct Hnone as [_ Hnone].
    apply Forall_inv in Hnone. congruence.
Qed.

Lemma wait_call_nonpositive_max_waits_for_ring_witness :
  wait_call noon 0 (mkWorld [BLANK; BLANK] [] 0) = None
  /\ wait_call noon 0 (mkWorld [BLANK; RING; RING] [] 0)
     = Some (inr ((noon 0, []), mkWorld [RING] [] 1)).
Proof.
  split.
  - apply (proj2 (wait_call_nonpositive_max_waits_for_ring noon 0
                    (mkWorld [BLANK; BLANK] [] 0)
                    ltac:(apply Z.leb_le; reflexivity)
                    ltac:(repeat constructor)
                    ltac:(repeat constructor))).
    repeat constructor.
  - apply (proj1 (wait_call_nonpositive_max_waits_for_ring noon 0
                    (mkWorld [BLANK; RING; RING] [] 0)
                    ltac:(apply Z.leb_le; reflexivity)
                    ltac:(repeat constructor)
                    ltac:(repeat constructor))).
    exists [BLANK], RING, [RING].
    split; [reflexivity|]. split; [repeat constructor|].
    split; [reflexivity|]. split; reflexivity.
Defined.

(** ** The recording loop *)

Section Recording.

Variable time_time : nat -> Q.
Variable datetime_now : nat -> DateTime.

Lemma con_read_chunk (w : World) :
  con_read chunksize w = (chunk_at w 0, mkWorld (tl (rx w)) (tx w) (ticks w)).
Proof.
  unfold con_read, chunk_at. destruct w as [[|l rest] sent k]; reflexivity.
Qed.

(** One turn of the read loop. *)
Lemma record_loop_step (fuel : nat) (start timeout : Q) (frames : list bytes)
    (w : World) :
  record_loop time_time (S fuel) start timeout frames w =
  if __detect_end (chunk_at w 0) then Some (frames, loop_exit_world w 0)
  else if timed_out_at time_time start timeout w 0
       then Some (frames, loop_exit_world w 0)
       else record_loop time_time fuel start timeout (frames ++ [chunk_at w 0])
              (mkWorld (tl (rx w)) (tx w) (S (ticks w))).
Proof.
  cbn [record_loop]. rewrite con_read_chunk.
  unfold loop_exit_world, timed_out_at, time_now; cbn [rx tx ticks].
  destruct (__detect_end (chunk_at w 0)); rewrite ?Nat.add_0_r, ?Nat.add_1_r.
  - destruct (rx w); reflexivity.
  - destruct (Qle_bool timeout (time_time (ticks w) - start));
      [destruct (rx w)|]; reflexivity.
Qed.

Lemma chunk_at_tl (w : World) (i : nat) :
  chunk_at (mkWorld (tl (rx w)) (tx w) (S (ticks w))) i = chunk_at w (S i).
Proof. unfold chunk_at. destruct w as [[|l rest] sent k]; destruct i; reflexivity. Qed.

Lemma timed_out_at_tl (start timeout : Q) (w : World) (i : nat) :
  timed_out_at time_time start timeout
    (mkWorld (tl (rx w)) (tx w) (S (ticks w))) i
  = timed_out_at time_time start timeout w (S i).
Proof. unfold timed_out_at; cbn [ticks]. rewrite Nat.add_succ_r. reflexivity. Qed.

Lemma loop_exit_world_tl (w : World) (n : nat) :
  loop_exit_world (mkWorld (tl (rx w)) (tx w) (S (ticks w))) n
  = loop_exit_world w (S n).
Proof.
  unfold loop_exit_world. rewrite chunk_at_tl. cbn [rx tx ticks].
  f_equal.
  - destruct (rx w); [destruct n|]; reflexivity.
  - destruct (__detect_end (chunk_at w (S n))); lia.
Qed.

Lemma chunks_shift (w : World) (n : nat) :
  map (chunk_at w) (seq 0 (S n))
  = chunk_at w 0
    :: map (chunk_at (mkWorld (tl (rx w)) (tx w) (S (ticks w)))) (seq 0 n).
Proof.
  cbn [seq map]. f_equal. rewrite <- seq_shift, map_map.
  apply map_ext. intros i. symmetry. apply chunk_at_tl.
Qed.

(** The loop stops in the first turn in which the block read holds a
    marker or the time test holds, given fuel for that many turns, and
    has then collected the blocks of the turns before. *)
Lemma record_loop_exit (n : nat) :
  forall (fuel : nat) (start timeout : Q) (frames : list bytes) (w : World),
    n < fuel ->
    (forall i, i < n ->
       __detect_end (chunk_at w i) = false
       /\ timed_out_at time_time start timeout w i = false) ->
    __detect_end (chunk_at w n) = true
    \/ timed_out_at time_time start timeout w n = true ->
    record_loop time_time fuel start timeout frames w
    = Some (frames ++ map (chunk_at w) (seq 0 n), loop_exit_world w n).
Proof.
  induction n as [|n IH]; intros fuel start timeout frames w Hfuel Hbefore Hexit;
    (destruct fuel as [|fuel]; [lia|]); rewrite record_loop_step.
  - cbn [seq map]. rewrite app_nil_r.
    destruct (__detect_end (chunk_at w 0)); [reflexivity|].
    destruct Hexit as [H | H]; [discriminate|]. rewrite H. reflexivity.
  - destruct (Hbefore 0 ltac:(lia)) as [-> ->].
    rewrite (IH fuel); [| lia | |].
    + rewrite loop_exit_world_tl, chunks_shift, <- app_assoc. reflexivity.
    + intros i Hi. rewrite chunk_at_tl, timed_out_at_tl. apply Hbefore. lia.
    + rewrite chunk_at_tl, timed_out_at_tl. exact Hexit.
Qed.

(** Whenever the loop returns, it has stopped in such a turn. *)
Lemma record_loop_inv (fuel : nat) :
  forall (start timeout : Q) (frames : list bytes) (w : World)
         (fr : list bytes) (w' : World),
    record_loop time_time fuel start timeout frames w = Some (fr, w') ->
    exists n,
      n < fuel
      /\ fr = frames ++ map (chunk_at w) (seq 0 n)
      /\ w' = loop_exit_world w n
      /\ (forall i, i < n ->
            __detect_end (chunk_at w i) = false
            /\ timed_out_at time_time start timeout w i = false)
      /\ (__detect_end (chunk_at w n) = true
          \/ timed_out_at time_time start timeout w n = true).
Proof.
  induction fuel as [|fuel IH]; intros start timeout frames w fr w' H;
    [discriminate|].
  rewrite record_loop_step in H.
  destruct (__detect_end (chunk_at w 0)) eqn:Hd.
  - injection H as <- <-. exists 0. cbn [seq map]. rewrite app_nil_r.
    repeat split; auto; lia.
  - destruct (timed_out_at time_time start timeout w 0) eqn:Ht.
    + injection H as <- <-. exists 0. cbn [seq map]. rewrite app_nil_r.
      repeat split; auto; lia.
    + apply IH in H. destruct H as [n [Hn [-> [-> [Hbefore Hexit]]]]].
      exists (S n). split; [lia|].
      rewrite loop_exit_world_tl, chunks_shift, <- app_assoc.
      split; [reflexivity|]. split; [reflexivity|]. split.
      * intros [|i] Hi; [auto|].
        rewrite <- chunk_at_tl, <- timed_out_at_tl. apply Hbefore. lia.
      * rewrite <- chunk_at_tl, <- timed_out_at_tl. exact Hexit.
Qed.

Lemma at_tx (cmd expected : str) (w : World) :
  tx (snd (__at cmd expected w)) = tx w ++ [cmd ++ [CR]].
Proof.
  rewrite at_run. destruct (next_substantive (rx w)) as [resp pending].
  cbv zeta. destruct (bytes_eqb resp (cmd ++ CRCRLF)); [|reflexivity].
  destruct pending; reflexivity.
Qed.

Lemma hang_up_tx (w : World) :
  tx (snd (hang_up w)) = tx w ++ map (fun c => c ++ [CR]) hang_up_commands.
Proof.
  unfold hang_up, bind, ret, at_ok.
  pose proof (at_tx (lit "AT+FCLASS=8") (lit "OK") w) as H1.
  destruct (__at (lit "AT+FCLASS=8") (lit "OK") w) as [b1 w1].
  pose proof (at_tx (lit "ATH") (lit "OK") w1) as H2.
  destruct (__at (lit "ATH") (lit "OK") w1) as [b2 w2].
  cbn [snd] in *. rewrite H2, H1, <- app_assoc. reflexivity.
Qed.

Lemma record_setup_tx (w : World) :
  tx (record_setup w) = tx w ++ map (fun c => c ++ [CR]) record_setup_commands.
Proof.
  unfold record_setup, at_ok.
  pose proof (at_tx (lit "AT+FCLASS=8") (lit "OK") w) as H1.
  destruct (__at (lit "AT+FCLASS=8") (lit "OK") w) as [b1 w1].
  pose proof (at_tx (lit "AT+VSM=1,8000,0,0") (lit "OK") w1) as H2.
  destruct (__at (lit "AT+VSM=1,8000,0,0") (lit "OK") w1) as [b2 w2].
  pose proof (at_tx (lit "AT+VLS=1") (lit "OK") w2) as H3.
  destruct (__at (lit "AT+VLS=1") (lit "OK") w2) as [b3 w3].
  pose proof (at_tx (lit "AT+VSD=128,50") (lit "OK") w3) as H4.
  destruct (__at (lit "AT+VSD=128,50") (lit "OK") w3) as [b4 w4].
  pose proof (at_tx (lit "AT+VRX") (lit "CONNECT") w4) as H5.
  destruct (__at (lit "AT+VRX") (lit "CONNECT") w4) as [b5 w5].
  cbn [snd tx] in *. rewrite H5, H4, H3, H2, H1, <- !app_assoc. reflexivity.
Qed.

(** [record_call] is its set-up, its read loop, [hang_up] and the file. *)
Lemma record_call_unfold (cls : ClassObject) (fuel : nat)
    (date : option DateTime) (number : str) (timeout : Q) (w : World) :
  record_call time_time cls fuel date number timeout w =
  match record_loop time_time fuel (record_start time_time w) timeout []
          (record_setup w) with
  | None => None
  | Some (frames, w1) =>
      let path :=
        strftime (match date with
                  | Some d => d
                  | None => record_call_date_default cls
                  end) ++ number ++ lit ".wav" in
      Some (mkRecording path 1 1 8000 (List.concat frames)
              (firstn (List.length path - 3) path ++ lit "mp3"),
            snd (hang_up w1))
  end.
Proof.
  unfold record_call, record_start, record_setup, time_now.
  destruct (at_ok (lit "AT+FCLASS=8") w) as [b1 w1].
  destruct (at_ok (lit "AT+VSM=1,8000,0,0") w1) as [b2 w2].
  destruct (at_ok (lit "AT+VLS=1") w2) as [b3 w3].
  destruct (at_ok (lit "AT+VSD=128,50") w3) as [b4 w4].
  destruct (__at (lit "AT+VRX") (lit "CONNECT") w4) as [b5 w5].
  cbn [ticks Nat.pred].
  destruct (record_loop time_time fuel _ timeout [] _) as [[frames w6]|];
    [|reflexivity].
  destruct (hang_up w6) as [u w7]. reflexivity.
Qed.

End Recording.

(** The scenario of the specification, run: the recording holds the first
    two blocks only. *)
Lemma call_world_run :
  record_call still_clock the_class 10 None (lit "unknown")
    (inject_Z 7200) call_world
  = Some (call_recording, call_end_world).
Proof. vm_compute. reflexivity. Qed.

(** C2, as stated, fails: in the scenario of three blocks with
    [0x10 0x03] at offset 500 of the third, the third block is not
    collected. *)
Lemma record_call_drops_marker_block :
  record_call still_clock the_class 10 None (lit "unknown")
    (inject_Z 7200) call_world
  = Some (call_recording, call_end_world)
  /\ __detect_end block3 = true
  /\ wav_frames call_recording = block1 ++ block2
  /\ wav_frames call_recording <> block1 ++ block2 ++ block3.
Proof.
  split; [exact call_world_run|].
  split; [vm_compute; reflexivity|].
  split; [reflexivity|].
  intros H. apply (f_equal (@List.length ascii)) in H.
  vm_compute in H. discriminate.
Qed.

(** C2, amended.  The read loop of [record_call] stops in the first turn
    [n] in which the block read holds a termination marker or the elapsed
    time has reached [timeout] (marker or no marker), given fuel for that
    many turns.  It has then read [n + 1] blocks and no more; the
    recording is the blocks of the turns before, unchanged, without the
    block of turn [n]; and the hang-up commands are then sent, once. *)
Theorem record_call_stops_at_first_exit
    (time_time : nat -> Q) (cls : ClassObject) (n fuel : nat)
    (date : option DateTime) (number : str) (timeout : Q) (w : World) :
  let w0 := record_setup w in
  let start := record_start time_time w in
  n < fuel ->
  (forall i, i < n ->
     __detect_end (chunk_at w0 i) = false
     /\ timed_out_at time_time start timeout w0 i = false) ->
  __detect_end (chunk_at w0 n) = true
  \/ timed_out_at time_time start timeout w0 n = true ->
  exists rec w',
    record_call time_time cls fuel date number timeout w = Some (rec, w')
    /\ wav_frames rec = List.concat (map (chunk_at w0) (seq 0 n))
    /\ w' = snd (hang_up (loop_exit_world w0 n))
    /\ rx (loop_exit_world w0 n) = skipn (S n) (rx w0)
    /\ tx w' = tx w ++ map (fun c => c ++ [CR])
                         (record_setup_commands ++ hang_up_commands).
Proof.
  intros w0 start Hfuel Hbefore Hexit.
  rewrite record_call_unfold.
  fold w0. fold start.
  rewrite (record_loop_exit time_time n fuel start timeout [] w0 Hfuel Hbefore Hexit).
  cbn [app]. eexists. eexists.
  split; [reflexivity|]. split; [reflexivity|]. split; [reflexivity|].
  split; [reflexivity|].
  rewrite hang_up_tx. unfold loop_exit_world; cbn [tx].
  unfold w0. rewrite record_setup_tx, map_app, app_assoc. reflexivity.
Qed.

Lemma record_call_stops_at_first_exit_witness :
  exists rec w',
    record_call still_clock the_class 10 None (lit "unknown")
      (inject_Z 7200) call_world = Some (rec, w')
    /\ wav_frames rec
       = List.concat (map (chunk_at (record_setup call_world)) (seq 0 2))
    /\ w' = snd (hang_up (loop_exit_world (record_setup call_world) 2))
    /\ rx (loop_exit_world (record_setup call_world) 2)
       = skipn 3 (rx (record_setup call_world))
    /\ tx w' = tx call_world ++ map (fun c => c ++ [CR])
                 (record_setup_commands ++ hang_up_commands).
Proof.
  apply (record_call_stops_at_first_exit still_clock the_class 2 10 None
           (lit "unknown") (inject_Z 7200) call_world).
  - apply Nat.ltb_lt. reflexivity.
  - intros i Hi. destruct i as [|[|i]].
    + split; vm_compute; reflexivity.
    + split; vm_compute; reflexivity.
    + exfalso. apply Nat.ltb_lt in Hi. discriminate.
  - left. vm_compute. reflexivity.
Defined.

(** C8.  Whenever [record_call] returns, its recording is the blocks read
    in the turns before the one that ended the loop: each of them is a
    block in which the detector found no marker and after which the time
    test was still false, and the block read in the ending turn, in which
    the detector or the time test fired, is not part of it. *)
Theorem record_call_frames_invariant
    (time_time : nat -> Q) (cls : ClassObject) (fuel : nat)
    (date : option DateTime) (number : str) (timeout : Q) (w : World)
    (rec : Recording) (w' : World) :
  record_call time_time cls fuel date number timeout w = Some (rec, w') ->
  let w0 := record_setup w in
  let start := record_start time_time w in
  exists n,
    wav_frames rec = List.concat (map (chunk_at w0) (seq 0 n))
    /\ (forall i, i < n ->
          __detect_end (chunk_at w0 i) = false
          /\ timed_out_at time_time start timeout w0 i = false)
    /\ (__detect_end (chunk_at w0 n) = true
        \/ timed_out_at time_time start timeout w0 n = true)
    /\ rx w' = rx (snd (hang_up (loop_exit_world w0 n))).
Proof.
  intros H w0 start. rewrite record_call_unfold in H.
  fold w0 in H. fold start in H.
  destruct (record_loop time_time fuel start timeout [] w0)
    as [[frames w1]|] eqn:E; [|discriminate].
  apply record_loop_inv in E.
  destruct E as [n [_ [-> [-> [Hbefore Hexit]]]]].
  injection H as <- <-. exists n. cbn [wav_frames app]. auto.
Qed.

Lemma record_call_frames_invariant_witness :
  exists n,
    wav_frames call_recording
    = List.concat (map (chunk_at (record_setup call_world)) (seq 0 n))
    /\ (forall i, i < n ->
          __detect_end (chunk_at (record_setup call_world) i) = false
          /\ timed_out_at still_clock (record_start still_clock call_world)
               (inject_Z 7200) (record_setup call_world) i = false)
    /\ (__detect_end (chunk_at (record_setup call_world) n) = true
        \/ timed_out_at still_clock (record_start still_clock call_world)
             (inject_Z 7200) (record_setup call_world) n = true)
    /\ rx call_end_world
       = rx (snd (hang_up (loop_exit_world (record_setup call_world) n))).
Proof.
  apply (record_call_frames_invariant still_clock the_class 10 None
           (lit "unknown") (inject_Z 7200) call_world
           call_recording call_end_world).
  vm_compute. reflexivity.
Defined.

(** C10.  The default of [date] is the value [datetime.now()] had when
    the class body ran.  Every call of [record_call] that omits [date]
    names its file after that one timestamp, whatever the clock reads when
    the call is made: two such calls for the same number write to the same
    file names. *)
Theorem record_call_default_date_is_definition_time
    (time_time : nat -> Q) (datetime_now : nat -> DateTime) (w_def : World)
    (number : str)
    (fuel1 fuel2 : nat) (timeout1 timeout2 : Q) (w1 w2 : World)
    (rec1 rec2 : Recording) (w1' w2' : World) :
  let cls := fst (class_body datetime_now w_def) in
  record_call time_time cls fuel1 None number timeout1 w1 = Some (rec1, w1') ->
  record_call time_time cls fuel2 None number timeout2 w2 = Some (rec2, w2') ->
  record_call_date_default cls = datetime_now (ticks w_def)
  /\ wav_path rec1
     = strftime (datetime_now (ticks w_def)) ++ number ++ lit ".wav"
  /\ wav_path rec2 = wav_path rec1
  /\ mp3_path rec2 = mp3_path rec1.
Proof.
  intros cls H1 H2. rewrite record_call_unfold in H1, H2.
  destruct (record_loop time_time fuel1 _ timeout1 [] _) as [[fr1 u1]|];
    [|discriminate].
  destruct (record_loop time_time fuel2 _ timeout2 [] _) as [[fr2 u2]|];
    [|discriminate].
  injection H1 as <- _. injection H2 as <- _.
  cbn [wav_path mp3_path]. repeat split.
Qed.

Lemma record_call_default_date_is_definition_time_witness :
  record_call_date_default (fst (class_body calendar (mkWorld [] [] 0)))
  = calendar 0
  /\ wav_path call_recording
     = strftime (calendar 0) ++ lit "unknown" ++ lit ".wav"
  /\ wav_path call_recording = wav_path call_recording
  /\ mp3_path call_recording = mp3_path call_recording.
Proof.
  apply (record_call_default_date_is_definition_time still_clock calendar
           (mkWorld [] [] 0) (lit "unknown") 10 10
           (inject_Z 7200) (inject_Z 7200)
           (call_world_at 7) (call_world_at 40)
           call_recording call_recording
           (call_end_world_at 7) (call_end_world_at 40)).
  - vm_compute. reflexivity.
  - vm_compute. reflexivity.
Defined.

(** ** The playback loop *)

(** The loop test [data != ''] holds for every byte string, also the
    empty one. *)
Lemma bytes_never_equal_str (data : bytes) (s : str) :
  negb (py_eqb (PyBytes data) (PyStr s)) = true.
Proof. reflexivity. Qed.

(** C3.  On a wave object of a single block, with [timeout = 1] and a
    clock that advances a quarter of a second per turn, [play_audio_obj]
    does not stop when the source is exhausted after the first block: it
    goes on for three more turns, writing the empty byte string each
    time, and stops only when the elapsed time has reached the timeout.
    (With [timeout = 0] the timeout used is [nframes / framerate].) *)
Theorem play_audio_obj_runs_past_exhaustion :
  exists wav' w',
    play_audio_obj quarter_clock 10 one_block_wav (inject_Z 1) play_world
    = Some (inr (wav', w'))
    /\ unread (snd (readframes chunksize one_block_wav)) = []
    /\ tx w' = [lit "AT+VTX" ++ [CR]; block1; []; []; []]
    /\ ticks w' = 5
    /\ effective_timeout one_block_wav (inject_Z 0)
       = inr (inject_Z 1024 / inject_Z 8000)%Q.
Proof.
  eexists. eexists.
  split; [vm_compute; reflexivity|].
  split; [vm_compute; reflexivity|].
  split; [vm_compute; reflexivity|].
  split; [reflexivity|].
  reflexivity.
Qed.

(** * Further properties *)

(** ** The command channel, whatever the transport does *)

Lemma next_substantive_cases (pending : list bytes) :
  exists skips,
    Forall (fun l => is_stray l = true) skips
    /\ ((pending = skips /\ next_substantive pending = ([], []))
        \/ exists l rest,
             pending = skips ++ l :: rest /\ is_stray l = false
             /\ next_substantive pending = (l, rest)).
Proof.
  induction pending as [|l pending IH].
  - exists []. split; [constructor | left; split; reflexivity].
  - destruct (is_stray l) eqn:E.
    + destruct IH as [skips [Hs H]]. exists (l :: skips).
      split; [constructor; assumption|].
      rewrite (next_substantive_stray _ _ E).
      destruct H as [[-> H] | [l1 [rest [-> [Hl H]]]]].
      * left. split; [reflexivity | exact H].
      * right. exists l1, rest. repeat split; assumption.
    + exists []. split; [constructor|]. right. exists l, pending.
      repeat split; [exact E | apply next_substantive_found, E].
Qed.

Lemma at_ticks (cmd expected : str) (w : World) :
  ticks (snd (__at cmd expected w)) = ticks w.
Proof.
  rewrite at_run. destruct (next_substantive (rx w)) as [resp pending].
  cbv zeta. destruct (bytes_eqb resp (cmd ++ CRCRLF)); [|reflexivity].
  destruct pending; reflexivity.
Qed.

Lemma stray_lines_exact (skips : list bytes) :
  Forall (fun l => is_stray l = true) skips ->
  Forall (fun l => l = CRLF \/ l = lit "OK" ++ CRLF) skips.
Proof. apply Forall_impl. intros l. apply is_stray_cases. Qed.

(** X1.  [__at] answers [True] only if what it read was stray lines, then
    the echo of the command, then the expected line, and nothing else; it
    has then written the command once and left the rest of the input
    unread. *)
Theorem at_true_only_after_echo_and_result
    (cmd expected : str) (w w' : World) :
  __at cmd expected w = (true, w') ->
  exists skips rest,
    Forall (fun l => l = CRLF \/ l = lit "OK" ++ CRLF) skips
    /\ rx w = skips ++ (cmd ++ CRCRLF) :: (expected ++ CRLF) :: rest
    /\ w' = mkWorld rest (tx w ++ [cmd ++ [CR]]) (ticks w).
Proof.
  rewrite at_run. cbv zeta.
  destruct (next_substantive_cases (rx w))
    as [skips [Hs [[Heq ->] | [l [rest [Heq [Hl ->]]]]]]].
  - destruct (bytes_eqb [] (cmd ++ CRCRLF)); discriminate.
  - destruct (bytes_eqb l (cmd ++ CRCRLF)) eqn:E; [|discriminate].
    apply bytes_eqb_eq in E. subst l.
    destruct rest as [|l2 rest]; [discriminate|].
    intros H. injection H as H <-. apply bytes_eqb_eq in H. subst l2.
    exists skips, rest. split; [apply stray_lines_exact, Hs|]. split; auto.
Qed.

Lemma at_true_only_after_echo_and_result_witness :
  exists skips rest,
    Forall (fun l => l = CRLF \/ l = lit "OK" ++ CRLF) skips
    /\ rx (mkWorld [CRLF; lit "ATH" ++ CRCRLF; lit "OK" ++ CRLF; RING] [] 0)
       = skips ++ (lit "ATH" ++ CRCRLF) :: (lit "OK" ++ CRLF) :: rest
    /\ mkWorld [RING] [lit "ATH" ++ [CR]] 0
       = mkWorld rest
           (tx (mkWorld [CRLF; lit "ATH" ++ CRCRLF; lit "OK" ++ CRLF; RING] [] 0)
            ++ [lit "ATH" ++ [CR]])
           (ticks (mkWorld [CRLF; lit "ATH" ++ CRCRLF; lit "OK" ++ CRLF; RING] [] 0)).
Proof.
  apply (at_true_only_after_echo_and_result (lit "ATH") (lit "OK")
           (mkWorld [CRLF; lit "ATH" ++ CRCRLF; lit "OK" ++ CRLF; RING] [] 0)
           (mkWorld [RING] [lit "ATH" ++ [CR]] 0)).
  reflexivity.
Defined.

(** X2.  On a transport that stays silent, or sends only stray lines, or
    goes silent right after the echo, [__at] answers [False]: a read that
    times out is a failed match; all the input has then been consumed. *)
Theorem at_false_on_silent_transport
    (cmd expected : str) (skips sent : list bytes) (k : nat) :
  Forall (fun l => l = CRLF \/ l = lit "OK" ++ CRLF) skips ->
  __at cmd expected (mkWorld skips sent k)
  = (false, mkWorld [] (sent ++ [cmd ++ [CR]]) k)
  /\ __at cmd expected (mkWorld (skips ++ [cmd ++ CRCRLF]) sent k)
     = (false, mkWorld [] (sent ++ [cmd ++ [CR]]) k).
Proof.
  intros Hskips.
  assert (Hs : Forall (fun l => is_stray l = true) skips).
  { eapply Forall_impl; [|exact Hskips]. intros l Hl. apply is_stray_cases, Hl. }
  split; rewrite at_run; cbn [rx tx ticks].
  - rewrite <- (app_nil_r skips) at 1.
    rewrite (next_substantive_skips _ _ Hs). cbn [next_substantive].
    destruct (bytes_eqb [] (cmd ++ CRCRLF)) eqn:E; [|reflexivity].
    apply bytes_eqb_eq in E. destruct cmd; discriminate.
  - rewrite (next_substantive_skips _ _ Hs),
      (next_substantive_found _ _ (echo_not_stray cmd)).
    rewrite bytes_eqb_refl. reflexivity.
Qed.

Lemma at_false_on_silent_transport_witness :
  __at (lit "ATA") (lit "OK") (mkWorld [CRLF; lit "OK" ++ CRLF] [] 0)
  = (false, mkWorld [] [lit "ATA" ++ [CR]] 0)
  /\ __at (lit "ATA") (lit "OK")
       (mkWorld ([CRLF; lit "OK" ++ CRLF] ++ [lit "ATA" ++ CRCRLF]) [] 0)
     = (false, mkWorld [] [lit "ATA" ++ [CR]] 0).
Proof.
  apply (at_false_on_silent_transport (lit "ATA") (lit "OK")
           [CRLF; lit "OK" ++ CRLF] [] 0).
  repeat first [apply Forall_nil | apply Forall_cons;
                [first [left; reflexivity | right; reflexivity]|]].
Defined.

(** ** Command sequences *)

Lemma send_all_effects (cmds : list str) :
  forall w : World,
    tx (snd (send_all cmds w)) = tx w ++ map (fun c => c ++ [CR]) cmds
    /\ ticks (snd (send_all cmds w)) = ticks w.
Proof.
  induction cmds as [|c cmds IH]; intros w.
  - cbn. rewrite app_nil_r. auto.
  - cbn [send_all map]. unfold bind, at_ok.
    pose proof (at_tx c (lit "OK") w) as Ht.
    pose proof (at_ticks c (lit "OK") w) as Hk.
    destruct (__at c (lit "OK") w) as [r w1]. cbn [snd] in Ht, Hk.
    destruct (IH w1) as [IH1 IH2].
    rewrite IH1, IH2, Ht, Hk, <- app_assoc. auto.
Qed.

Lemma send_all_scripted (cmds : list str) (rest : list bytes) (k : nat) :
  forall sent : list bytes,
    send_all cmds (mkWorld (script cmds ++ rest) sent k)
    = (tt, mkWorld rest (sent ++ map (fun c => c ++ [CR]) cmds) k).
Proof.
  induction cmds as [|c cmds IH]; intros sent.
  - cbn. rewrite app_nil_r. reflexivity.
  - cbn [send_all script flat_map map]. unfold bind at 1.
    rewrite <- !app_comm_cons. cbn [app].
    rewrite at_ok_scripted. fold (script cmds). rewrite IH, <- app_assoc.
    reflexivity.
Qed.

Lemma send_while_ok_spec (cmds : list str) :
  forall w : World,
    (exists w',
       send_while_ok cmds w = (true, w') /\ all_ok cmds w = Some w'
       /\ tx w' = tx w ++ map (fun c => c ++ [CR]) cmds)
    \/ (exists w' n wn,
          send_while_ok cmds w = (false, w') /\ all_ok cmds w = None
          /\ n < List.length cmds
          /\ all_ok (firstn n cmds) w = Some wn
          /\ at_ok (nth n cmds []) wn = (false, w')
          /\ tx w' = tx w ++ map (fun c => c ++ [CR]) (firstn (S n) cmds)).
Proof.
  induction cmds as [|c cmds IH]; intros w.
  - left. exists w. cbn. rewrite app_nil_r. auto.
  - cbn [send_while_ok all_ok]. unfold bind at 1 2.
    pose proof (at_tx c (lit "OK") w) as Ht.
    change (__at c (lit "OK") w) with (at_ok c w) in Ht.
    destruct (at_ok c w) as [[|] w1] eqn:E; cbn [snd negb] in *.
    + destruct (IH w1)
        as [[w' [H1 [H2 H3]]] | [w' [n [wn [H1 [H2 [Hn [H4 [H5 H3]]]]]]]]].
      * left. exists w'. rewrite H3, Ht, <- app_assoc. auto.
      * right. exists w', (S n), wn. rewrite H3, Ht, <- app_assoc.
        cbn [List.length firstn nth all_ok]. rewrite E.
        repeat split; auto. lia.
    + right. exists w1, 0, w. cbn [List.length firstn map nth all_ok].
      rewrite Ht. repeat split; auto. lia.
Qed.

Lemma self_test_chain (w : World) :
  self_test w = send_while_ok self_test_commands w.
Proof.
  unfold self_test, self_test_commands, send_while_ok, bind, ret.
  repeat (destruct (at_ok _ _) as [[|] ?]; cbn [negb]; try reflexivity).
Qed.

Lemma send_while_ok_summary (cmds : list str) (w : World) :
  (forall w', send_while_ok cmds w = (true, w') <-> all_ok cmds w = Some w')
  /\ (fst (send_while_ok cmds w) = true ->
      tx (snd (send_while_ok cmds w)) = tx w ++ map (fun c => c ++ [CR]) cmds)
  /\ (fst (send_while_ok cmds w) = false ->
      exists n wn,
        n < List.length cmds
        /\ all_ok (firstn n cmds) w = Some wn
        /\ at_ok (nth n cmds []) wn = (false, snd (send_while_ok cmds w))
        /\ tx (snd (send_while_ok cmds w))
           = tx w ++ map (fun c => c ++ [CR]) (firstn (S n) cmds))
  /\ (forall rest, rx w = script cmds ++ rest ->
        send_while_ok cmds w
        = (true, mkWorld rest (tx w ++ map (fun c => c ++ [CR]) cmds) (ticks w))).
Proof.
  destruct (send_while_ok_spec cmds w)
    as [[w1 [H1 [H2 H3]]] | [w1 [n [wn [H1 [H2 [Hn [H4 [H5 H3]]]]]]]]];
    rewrite H1, H2; cbn [fst snd].
  - split; [|split; [|split]].
    + intros w'. split; intros H; injection H as <-; reflexivity.
    + intros _. exact H3.
    + intros H; discriminate H.
    + intros rest Hrx. destruct w as [pending sent k]. cbn [rx tx ticks] in *.
      subst pending. rewrite all_ok_scripted in H2. injection H2 as <-.
      reflexivity.
  - split; [|split; [|split]].
    + intros w'. split; intros H; discriminate H.
    + intros H; discriminate H.
    + intros _. exists n, wn. auto.
    + intros rest Hrx. destruct w as [pending sent k]. cbn [rx] in Hrx.
      subst pending. rewrite all_ok_scripted in H2. discriminate H2.
Qed.

(** X3.  [self_test] answers [True] exactly when each of its seven
    commands, sent in order, gets its [OK]; all seven have then been
    written.  When it answers [False] it has stopped at the first command
    that failed: the commands before that one all got their [OK], that
    one did not, and the state [self_test] leaves is the state right
    after it, so that nothing was written or read for the commands
    behind it.  On a modem that answers every command it answers
    [True]. *)
Theorem self_test_true_iff_all_ok (w : World) :
  (forall w', self_test w = (true, w') <->
              all_ok self_test_commands w = Some w')
  /\ (fst (self_test w) = true ->
      tx (snd (self_test w))
      = tx w ++ map (fun c => c ++ [CR]) self_test_commands)
  /\ (fst (self_test w) = false ->
      exists n wn,
        n < List.length self_test_commands
        /\ all_ok (firstn n self_test_commands) w = Some wn
        /\ at_ok (nth n self_test_commands []) wn = (false, snd (self_test w))
        /\ tx (snd (self_test w))
           = tx w ++ map (fun c => c ++ [CR]) (firstn (S n) self_test_commands))
  /\ (forall rest, rx w = script self_test_commands ++ rest ->
        self_test w
        = (true, mkWorld rest
                   (tx w ++ map (fun c => c ++ [CR]) self_test_commands)
                   (ticks w))).
Proof.
  rewrite self_test_chain. exact (send_while_ok_summary self_test_commands w).
Qed.

(** X4.  [accept_call] writes its four commands, in order, whatever the
    modem answers, also when a command fails, and never reads the clock;
    on a modem that answers every command it consumes exactly the
    answers. *)
Theorem accept_call_sends_every_command (w : World) :
  tx (snd (accept_call w))
  = tx w ++ map (fun c => c ++ [CR]) accept_call_commands
  /\ ticks (snd (accept_call w)) = ticks w
  /\ (forall rest, rx w = script accept_call_commands ++ rest ->
        rx (snd (accept_call w)) = rest).
Proof.
  change (accept_call w) with (send_all accept_call_commands w).
  destruct (send_all_effects accept_call_commands w) as [H1 H2].
  split; [exact H1 | split; [exact H2|]].
  intros rest Hrx. destruct w as [pending sent k]. cbn [rx] in Hrx. subst pending.
  rewrite send_all_scripted. reflexivity.
Qed.

(** X5.  [dial number] writes the three mode commands, the silence
    detection command and [ATD] followed by the number, in order, whatever
    the modem answers; on a modem that answers every command it consumes
    exactly the answers. *)
Theorem dial_sends_every_command (number : str) (w : World) :
  tx (snd (dial number w))
  = tx w ++ map (fun c => c ++ [CR]) (dial_commands number)
  /\ last (tx (snd (dial number w))) [] = (lit "ATD" ++ number) ++ [CR]
  /\ ticks (snd (dial number w)) = ticks w
  /\ (forall rest, rx w = script (dial_commands number) ++ rest ->
        rx (snd (dial number w)) = rest).
Proof.
  change (dial number w) with (send_all (dial_commands number) w).
  destruct (send_all_effects (dial_commands number) w) as [H1 H2].
  split; [exact H1 | split; [|split; [exact H2|]]].
  - rewrite H1. unfold dial_commands. cbn [map].
    change (tx w ++ ?a :: ?b :: ?c :: ?d :: [?e])
      with (tx w ++ [a; b; c; d] ++ [e]).
    rewrite app_assoc, last_last. reflexivity.
  - intros rest Hrx. destruct w as [pending sent k]. cbn [rx] in Hrx. subst pending.
    rewrite send_all_scripted. reflexivity.
Qed.

(** X6.  [reject_call] answers the call and then hangs up: it writes
    [ATA], [AT+FCLASS=8] and [ATH], in this order, whatever the modem
    answers; [hang_up] alone writes the last two. *)
Theorem reject_call_answers_then_hangs_up (w : World) :
  tx (snd (reject_call w))
  = tx w ++ map (fun c => c ++ [CR]) (lit "ATA" :: hang_up_commands)
  /\ tx (snd (hang_up w)) = tx w ++ map (fun c => c ++ [CR]) hang_up_commands
  /\ snd (reject_call w) = snd (hang_up (snd (at_ok (lit "ATA") w)))
  /\ (forall rest, rx w = script (lit "ATA" :: hang_up_commands) ++ rest ->
        rx (snd (reject_call w)) = rest).
Proof.
  split; [|split; [|split]].
  - change (reject_call w) with (send_all (lit "ATA" :: hang_up_commands) w).
    apply send_all_effects.
  - change (hang_up w) with (send_all hang_up_commands w).
    apply send_all_effects.
  - unfold reject_call, bind. destruct (at_ok (lit "ATA") w) as [r w1].
    reflexivity.
  - intros rest Hrx. destruct w as [pending sent k]. cbn [rx] in Hrx. subst pending.
    change (reject_call ?x) with (send_all (lit "ATA" :: hang_up_commands) x).
    rewrite send_all_scripted. reflexivity.
Qed.

(** ** The ring loop: the caller-number path and ignored lines *)

Lemma replace_from_skip (old new : list ascii) (p x : list ascii) :
  replace_from (List.length p) old new (p ++ x) = replace_from 0 old new x.
Proof.
  induction p as [|c p IH]; [reflexivity|].
  cbn [List.length app replace_from]. exact IH.
Qed.

Lemma startswith_app (p x : list ascii) : startswith p (p ++ x) = true.
Proof. apply startswith_iff. exists x. reflexivity. Qed.

(** An occurrence at the very start is replaced, and the search goes on
    behind it. *)
Lemma replace_prefix (a : ascii) (old' new x : list ascii) :
  replace (a :: old') new ((a :: old') ++ x)
  = new ++ replace (a :: old') new x.
Proof.
  unfold replace.
  change ((a :: old') ++ x) with (a :: (old' ++ x)).
  cbn [replace_from].
  change (a :: old' ++ x) with ((a :: old') ++ x).
  rewrite startswith_app. cbn [List.length Nat.pred].
  rewrite replace_from_skip. reflexivity.
Qed.

(** Nothing is replaced in a text that lacks the first character of
    [old]. *)
Lemma replace_absent (a : ascii) (old' new x : list ascii) :
  ~ In a x -> replace (a :: old') new x = x.
Proof.
  unfold replace. induction x as [|c x IH]; intros Hno; [reflexivity|].
  cbn [replace_from startswith].
  destruct (Ascii.eqb a c) eqn:E.
  - apply Ascii.eqb_eq in E. exfalso. apply Hno. left. symmetry. exact E.
  - cbn [andb]. rewrite IH; [reflexivity|].
    intros H. apply Hno. right. exact H.
Qed.

(** A line terminator at the end of a text without [CR] is removed. *)
Lemma replace_crlf_suffix (x : list ascii) :
  ~ In CR x -> replace CRLF [] (x ++ CRLF) = x.
Proof.
  unfold replace. induction x as [|c x IH]; intros Hno; [reflexivity|].
  cbn [app replace_from]. unfold CRLF at 1. cbn [startswith].
  destruct (Ascii.eqb CR c) eqn:E.
  - apply Ascii.eqb_eq in E. exfalso. apply Hno. left. symmetry. exact E.
  - cbn [andb]. fold CRLF. rewrite IH; [reflexivity|].
    intros H. apply Hno. right. exact H.
Qed.

Lemma ring_count_none (lines : list bytes) :
  Forall (fun l => utf8_valid l = true
                   /\ is_nmbr_line l = false /\ is_ring_line l = false) lines ->
  Forall (fun l => utf8_valid l = true /\ is_nmbr_line l = false) lines
  /\ ring_count lines = 0%Z.
Proof.
  induction 1 as [|l lines [Hv [Hn Hr]] _ [IH1 IH2]].
  - split; [constructor | reflexivity].
  - split; [constructor; auto|]. cbn [ring_count]. rewrite Hr, IH2.
    reflexivity.
Qed.

(** Text of 7-bit characters is valid UTF-8. *)
Lemma utf8_valid_ascii (l : bytes) :
  Forall (fun c => nat_of_ascii c < 128) l -> utf8_valid l = true.
Proof.
  induction 1 as [|c l Hc _ IH]; [reflexivity|].
  cbn [utf8_valid]. unfold byte_in at 1.
  assert (H : (nat_of_ascii c <=? 127) = true) by (apply Nat.leb_le; lia).
  rewrite H. cbn [Nat.leb andb]. exact IH.
Qed.

(** Decodable lines without the caller-number token that do not bring the
    counter to the threshold are passed over; only the counter changes. *)
Lemma ring_loop_pass (max : Z) (pre : list bytes) :
  Forall (fun l => utf8_valid l = true /\ is_nmbr_line l = false) pre ->
  forall (rings : Z) (tail : list bytes),
    (ring_count pre = 0 \/ rings + ring_count pre < max)%Z ->
    ring_loop max rings (pre ++ tail)
    = ring_loop max (rings + ring_count pre) tail.
Proof.
  induction 1 as [|l0 pre [Hv Hn] _ IH]; intros rings tail Hlow.
  - cbn [app ring_count]. rewrite Z.add_0_r. reflexivity.
  - rewrite <- app_comm_cons, (ring_loop_step _ _ _ _ Hv Hn).
    pose proof (ring_count_nonneg pre) as Hpos.
    cbn [ring_count] in *. destruct (is_ring_line l0).
    + assert (Hlt : (rings + 1 >=? max)%Z = false).
      { destruct (Z.geb_spec (rings + 1) max); [lia | reflexivity]. }
      rewrite Hlt, IH; [|lia]. f_equal. lia.
    + rewrite IH; [|lia]. f_equal.
Qed.

Lemma ring_loop_at_nmbr (max rings : Z) (l : bytes) (rest : list bytes) :
  utf8_valid l = true ->
  is_nmbr_line l = true ->
  ring_loop max rings (l :: rest)
  = Some (inr (replace (lit "NMBR = ") [] (line_data l), rest)).
Proof.
  unfold is_nmbr_line, line_data. intros Hv Hl. cbn [ring_loop].
  unfold decode. rewrite Hv, Hl.
  destruct (bytes_eqb (replace CRLF [] l) []) eqn:E; [|reflexivity].
  apply bytes_eqb_eq in E. rewrite E in Hl. discriminate Hl.
Qed.

Lemma wait_call_at_nmbr (datetime_now : nat -> DateTime) (max : Z)
    (pre : list bytes) (l : bytes) (rest sent : list bytes) (k : nat) :
  Forall (fun x => utf8_valid x = true /\ is_nmbr_line x = false) pre ->
  (ring_count pre = 0 \/ ring_count pre < max)%Z ->
  utf8_valid l = true ->
  is_nmbr_line l = true ->
  wait_call datetime_now max (mkWorld (pre ++ l :: rest) sent k)
  = Some (inr ((datetime_now k, replace (lit "NMBR = ") [] (line_data l)),
               mkWorld rest sent (S k))).
Proof.
  intros Hpre Hlow Hv Hl. unfold wait_call, date_now. cbn [rx tx ticks].
  rewrite (ring_loop_pass max pre Hpre 0 (l :: rest) Hlow).
  rewrite (ring_loop_at_nmbr _ _ _ _ Hv Hl). reflexivity.
Qed.

(** X7.  On decodable lines [wait_call] returns at the first line that
    holds the caller-number token, whatever the ring count is then
    (provided the rings before it did not reach the threshold): the
    record holds the time and the line without its line terminator and
    without the text [NMBR = ]; the lines after it are left unread. *)
Theorem wait_call_returns_at_first_nmbr
    (datetime_now : nat -> DateTime) (max_rings_ignore_cid : Z)
    (pre : list bytes) (l : bytes) (rest sent : list bytes) (k : nat) :
  Forall (fun x => utf8_valid x = true) pre ->
  Forall (fun x => is_nmbr_line x = false) pre ->
  (ring_count pre = 0 \/ ring_count pre < max_rings_ignore_cid)%Z ->
  utf8_valid l = true ->
  is_nmbr_line l = true ->
  wait_call datetime_now max_rings_ignore_cid (mkWorld (pre ++ l :: rest) sent k)
  = Some (inr ((datetime_now k, replace (lit "NMBR = ") [] (line_data l)),
               mkWorld rest sent (S k))).
Proof.
  intros Hv Hn. apply wait_call_at_nmbr. exact (Forall_and Hv Hn).
Qed.

Lemma wait_call_returns_at_first_nmbr_witness :
  wait_call noon 4
    (mkWorld ([RING; BLANK] ++ (lit "NMBR = 5551234" ++ CRLF) :: [RING]) [] 0)
  = Some (inr ((noon 0,
                replace (lit "NMBR = ") []
                  (line_data (lit "NMBR = 5551234" ++ CRLF))),
               mkWorld [RING] [] 1)).
Proof.
  apply (wait_call_returns_at_first_nmbr noon 4 [RING; BLANK]
           (lit "NMBR = 5551234" ++ CRLF) [RING] [] 0).
  - repeat constructor.
  - repeat constructor.
  - right. apply Z.ltb_lt. reflexivity.
  - reflexivity.
  - reflexivity.
Defined.

(** X8.  From a caller-number line of the form [NMBR = <number> CR LF],
    where the number is 7-bit text that holds neither [CR] nor the letter
    [N], [wait_call] returns exactly the number. *)
Theorem wait_call_extracts_number
    (datetime_now : nat -> DateTime) (max_rings_ignore_cid : Z)
    (number : str) (rest sent : list bytes) (k : nat) :
  Forall (fun c => nat_of_ascii c < 128) number ->
  ~ In CR number ->
  ~ In "N"%char number ->
  wait_call datetime_now max_rings_ignore_cid
    (mkWorld ((lit "NMBR = " ++ number ++ CRLF) :: rest) sent k)
  = Some (inr ((datetime_now k, number), mkWorld rest sent (S k))).
Proof.
  intros H7 Hcr Hn.
  assert (Hv : utf8_valid (lit "NMBR = " ++ number ++ CRLF) = true).
  { apply utf8_valid_ascii. apply Forall_app. split; [|apply Forall_app; split].
    - repeat (constructor; [apply Nat.ltb_lt; reflexivity|]). constructor.
    - exact H7.
    - repeat (constructor; [apply Nat.ltb_lt; reflexivity|]). constructor. }
  assert (Hdata : line_data (lit "NMBR = " ++ number ++ CRLF)
                  = lit "NMBR = " ++ number).
  { unfold line_data. rewrite app_assoc. apply replace_crlf_suffix.
    intros H. apply in_app_or in H. destruct H as [H | H]; [|exact (Hcr H)].
    cbv in H. repeat (destruct H as [H | H]; [discriminate H|]). exact H. }
  assert (Hl : is_nmbr_line (lit "NMBR = " ++ number ++ CRLF) = true).
  { unfold is_nmbr_line. rewrite Hdata. apply contains_iff.
    exists [], (lit " = " ++ number). reflexivity. }
  pose proof (wait_call_at_nmbr datetime_now max_rings_ignore_cid []
                _ rest sent k (Forall_nil _) (or_introl eq_refl) Hv Hl) as H.
  change ([] ++ (lit "NMBR = " ++ number ++ CRLF) :: rest)
    with ((lit "NMBR = " ++ number ++ CRLF) :: rest) in H.
  rewrite H, Hdata.
  change (lit "NMBR = ") with ("N"%char :: lit "MBR = ").
  rewrite replace_prefix, replace_absent by exact Hn. reflexivity.
Qed.

Lemma wait_call_extracts_number_witness :
  wait_call noon 4 (mkWorld ((lit "NMBR = " ++ lit "5551234" ++ CRLF) :: [RING]) [] 0)
  = Some (inr ((noon 0, lit "5551234"), mkWorld [RING] [] 1)).
Proof.
  apply (wait_call_extracts_number noon 4 (lit "5551234") [RING] [] 0).
  - repeat (constructor; [apply Nat.ltb_lt; reflexivity|]). constructor.
  - cbv. intros H. repeat (destruct H as [H | H]; [discriminate H|]). exact H.
  - cbv. intros H. repeat (destruct H as [H | H]; [discriminate H|]). exact H.
Defined.

(** X9.  Decodable lines that hold neither token, blank lines and
    timed-out reads among them, are ignored by [wait_call]: with such
    lines in front it does what it does without them.  A line that is not
    valid UTF-8 is not ignored: read after such lines, it makes
    [wait_call] raise [UnicodeDecodeError]. *)
Theorem wait_call_ignores_other_lines
    (datetime_now : nat -> DateTime) (max_rings_ignore_cid : Z)
    (noise pending sent : list bytes) (k : nat) :
  Forall (fun l => utf8_valid l = true
                   /\ is_nmbr_line l = false /\ is_ring_line l = false) noise ->
  wait_call datetime_now max_rings_ignore_cid (mkWorld (noise ++ pending) sent k)
  = wait_call datetime_now max_rings_ignore_cid (mkWorld pending sent k)
  /\ (forall (bad : bytes) (rest : list bytes),
        utf8_valid bad = false ->
        wait_call datetime_now max_rings_ignore_cid
          (mkWorld (noise ++ bad :: rest) sent k)
        = Some (inl UnicodeDecodeError)).
Proof.
  intros Hnoise. apply ring_count_none in Hnoise. destruct Hnoise as [Hn H0].
  split.
  - unfold wait_call. cbn [rx tx ticks].
    rewrite (ring_loop_pass _ noise Hn 0 pending (or_introl H0)), H0.
    reflexivity.
  - intros bad rest Hbad. unfold wait_call. cbn [rx tx ticks].
    rewrite (ring_loop_pass _ noise Hn 0 (bad :: rest) (or_introl H0)), H0.
    rewrite (ring_loop_undecodable _ _ _ _ Hbad). reflexivity.
Qed.

Lemma wait_call_ignores_other_lines_witness :
  wait_call noon 1
    (mkWorld ([BLANK; []; lit "DATE = 0517" ++ CRLF] ++ [RING; RING]) [] 0)
  = wait_call noon 1 (mkWorld [RING; RING] [] 0)
  /\ (forall (bad : bytes) (rest : list bytes),
        utf8_valid bad = false ->
        wait_call noon 1
          (mkWorld ([BLANK; []; lit "DATE = 0517" ++ CRLF] ++ bad :: rest) [] 0)
        = Some (inl UnicodeDecodeError)).
Proof.
  apply (wait_call_ignores_other_lines noon 1
           [BLANK; []; lit "DATE = 0517" ++ CRLF] [RING; RING] [] 0).
  repeat constructor.
Defined.

(** ** The detector is a plain substring search *)

Lemma detect_end_inv (data : bytes) :
  __detect_end data = true ->
  exists pre c post, data = pre ++ DLE :: c :: post.
Proof.
  unfold __detect_end. rewrite !orb_true_iff, !contains_iff.
  intros [[[pre [post H]] | [pre [post H]]] | [pre [post H]]];
    exists pre; eexists; exists post; exact H.
Qed.

Lemma detect_end_no_dle (data : bytes) :
  ~ In DLE data -> __detect_end data = false.
Proof.
  intros Hno. destruct (__detect_end data) eqn:E; [|reflexivity].
  apply detect_end_inv in E. destruct E as [pre [c [post ->]]].
  exfalso. apply Hno. apply in_elt.
Qed.

(** X10.  A marker inside a buffer is found wherever the buffer is
    embedded, but a marker cut in two by a block boundary is found in
    neither part: a block that ends with its only [0x10] and a block that
    starts with the marker's second byte and holds no [0x10] are both
    reported clean, though their concatenation holds the marker. *)
Theorem detect_end_misses_split_marker :
  (forall pre a post : bytes,
     __detect_end a = true -> __detect_end (pre ++ a ++ post) = true)
  /\ (forall (a b : bytes) (c : ascii),
        ~ In DLE a ->
        ~ In DLE (c :: b) ->
        c = "s"%char \/ c = "b"%char \/ c = ETX ->
        __detect_end (a ++ [DLE]) = false
        /\ __detect_end (c :: b) = false
        /\ __detect_end ((a ++ [DLE]) ++ c :: b) = true).
Proof.
  split.
  - intros pre a post. unfold __detect_end.
    rewrite !orb_true_iff, !contains_iff.
    intros [[[p [q ->]] | [p [q ->]]] | [p [q ->]]];
      [left; left | left; right | right];
      exists (pre ++ p), (q ++ post); rewrite <- !app_assoc; reflexivity.
  - intros a b c Ha Hb Hc. split; [|split].
    + destruct (__detect_end (a ++ [DLE])) eqn:E; [|reflexivity].
      apply detect_end_inv in E. destruct E as [pre [c' [post H]]].
      exfalso. apply Ha. eapply dle_before_last. exact H.
    + apply detect_end_no_dle, Hb.
    + unfold __detect_end. rewrite !orb_true_iff, !contains_iff.
      rewrite <- app_assoc. cbn [app].
      destruct Hc as [-> | [-> | ->]];
        [left; left | left; right | right]; exists a, b; reflexivity.
Qed.

(** ** The playback loop sends the audio in order *)

Lemma firstn_add_split (a b : nat) (l : list ascii) :
  firstn (a + b) l = firstn a l ++ firstn b (skipn a l).
Proof.
  revert l; induction a as [|a IH]; intros l; [reflexivity|].
  destruct l as [|x l]; cbn [Nat.add firstn skipn app].
  - destruct b; reflexivity.
  - rewrite IH. reflexivity.
Qed.

Lemma audio_block_0 (fs : nat) (u : bytes) :
  audio_block fs u 0 = firstn (chunksize * fs) u.
Proof. unfold audio_block. rewrite Nat.mul_0_l. reflexivity. Qed.

Lemma audio_block_skip (fs : nat) (u : bytes) (i : nat) :
  audio_block fs (skipn (chunksize * fs) u) i = audio_block fs u (S i).
Proof.
  unfold audio_block. rewrite skipn_skipn. f_equal. f_equal.
  rewrite Nat.mul_succ_l. reflexivity.
Qed.

Lemma audio_blocks_shift (fs : nat) (u : bytes) (n : nat) :
  audio_block fs u 0
  :: map (audio_block fs (skipn (chunksize * fs) u)) (seq 0 n)
  = map (audio_block fs u) (seq 0 (S n)).
Proof.
  cbn [seq map]. f_equal. rewrite <- seq_shift, map_map.
  apply map_ext. intros i. apply audio_block_skip.
Qed.

(** The first [m] blocks, put together, are the first [m] block lengths
    of the audio. *)
Lemma audio_blocks_concat (fs : nat) (u : bytes) (m : nat) :
  List.concat (map (audio_block fs u) (seq 0 m))
  = firstn (m * (chunksize * fs)) u.
Proof.
  induction m as [|m IH]; [reflexivity|].
  rewrite seq_S, map_app, concat_app, IH. cbn [map List.concat Nat.add].
  rewrite app_nil_r, Nat.mul_succ_l, firstn_add_split. reflexivity.
Qed.

Section Playback.

Variable time_time : nat -> Q.

(** One turn of the loop: the test [data != ''] never ends it. *)
Lemma play_loop_step (fuel : nat) (start timeout : Q) (data : bytes)
    (wav : Wave_read) (w : World) :
  play_loop time_time (S fuel) start timeout data wav w =
  let w1 := mkWorld (rx w) (tx w ++ [data]) (S (ticks w)) in
  let wav1 := mkWave (nframes wav) (framerate wav) (framesize wav)
                (skipn (chunksize * framesize wav) (unread wav)) in
  if timed_out_at time_time start timeout w 0 then Some (wav1, w1)
  else play_loop time_time fuel start timeout
         (audio_block (framesize wav) (unread wav) 0) wav1 w1.
Proof.
  cbn [play_loop]. rewrite bytes_never_equal_str.
  unfold con_write, readframes, time_now, timed_out_at. cbn [rx tx ticks].
  rewrite Nat.add_0_r, audio_block_0. reflexivity.
Qed.

Lemma timed_out_at_next (start timeout : Q) (w : World) (data : bytes)
    (i : nat) :
  timed_out_at time_time start timeout
    (mkWorld (rx w) (tx w ++ [data]) (S (ticks w))) i
  = timed_out_at time_time start timeout w (S i).
Proof. unfold timed_out_at; cbn [ticks]. rewrite Nat.add_succ_r. reflexivity. Qed.

(** The loop ends in the first turn whose time test holds; it has then
    written the block it was entered with and one block of audio per
    earlier turn, and has read one block more. *)
Lemma play_loop_exit (n : nat) :
  forall (fuel : nat) (start timeout : Q) (data : bytes) (wav : Wave_read)
         (w : World),
    n < fuel ->
    (forall i, i < n -> timed_out_at time_time start timeout w i = false) ->
    timed_out_at time_time start timeout w n = true ->
    play_loop time_time fuel start timeout data wav w
    = Some (mkWave (nframes wav) (framerate wav) (framesize wav)
              (skipn (S n * (chunksize * framesize wav)) (unread wav)),
            mkWorld (rx w)
              (tx w ++ data
                 :: map (audio_block (framesize wav) (unread wav)) (seq 0 n))
              (ticks w + S n)).
Proof.
  induction n as [|n IH]; intros fuel start timeout data wav w Hfuel Hbefore Hexit;
    (destruct fuel as [|fuel]; [lia|]); rewrite play_loop_step; cbv zeta.
  - rewrite Hexit. cbn [seq map]. rewrite Nat.mul_1_l, Nat.add_1_r. reflexivity.
  - rewrite (Hbefore 0 ltac:(lia)).
    rewrite (IH fuel); [| lia | |].
    + cbn [nframes framerate framesize unread rx tx ticks].
      rewrite skipn_skipn, <- app_assoc. cbn [app].
      rewrite audio_blocks_shift. f_equal. f_equal.
      * f_equal. rewrite (Nat.mul_succ_l (S n)). reflexivity.
      * f_equal. lia.
    + intros i Hi. rewrite timed_out_at_next. apply Hbefore. lia.
    + rewrite timed_out_at_next. exact Hexit.
Qed.

(** [play_audio_obj] is its set-up and its loop. *)
Lemma play_audio_obj_unfold (fuel : nat) (wav : Wave_read) (timeout : Q)
    (w : World) :
  play_audio_obj time_time fuel wav timeout w =
  match effective_timeout wav timeout with
  | inl e => Some (inl e)
  | inr t =>
      match play_loop time_time fuel (play_start time_time w) t
              (audio_block (framesize wav) (unread wav) 0)
              (mkWave (nframes wav) (framerate wav) (framesize wav)
                 (skipn (chunksize * framesize wav) (unread wav)))
              (play_setup w) with
      | None => None
      | Some r => Some (inr r)
      end
  end.
Proof.
  unfold play_audio_obj, play_start, play_setup, time_now, readframes.
  destruct (effective_timeout wav timeout) as [e|t]; [reflexivity|].
  destruct (__at (lit "AT+VTX") (lit "OK") w) as [r w1].
  cbn [ticks Nat.pred]. rewrite audio_block_0. reflexivity.
Qed.

Lemma play_setup_tx (w : World) :
  tx (play_setup w) = tx w ++ [lit "AT+VTX" ++ [CR]].
Proof.
  unfold play_setup. pose proof (at_tx (lit "AT+VTX") (lit "OK") w) as H.
  destruct (__at (lit "AT+VTX") (lit "OK") w) as [r w1]. exact H.
Qed.

End Playback.

(** X11.  [play_audio_obj] ends in the first turn [n] of its loop in
    which the elapsed time has reached the timeout in use, given fuel for
    that many turns.  After [AT+VTX] it has then written [n + 1] blocks,
    which put together are the first [n + 1] block lengths of the audio,
    in order and unchanged (nothing once the audio is used up); it has
    read one block more from the wave object, and nothing from the
    modem. *)
Theorem play_audio_obj_sends_audio_in_order
    (time_time : nat -> Q) (n fuel : nat) (wav : Wave_read)
    (timeout t : Q) (w : World) :
  let w0 := play_setup w in
  let start := play_start time_time w in
  let blen := chunksize * framesize wav in
  effective_timeout wav timeout = inr t ->
  n < fuel ->
  (forall i, i < n -> timed_out_at time_time start t w0 i = false) ->
  timed_out_at time_time start t w0 n = true ->
  exists wav' w' blocks,
    play_audio_obj time_time fuel wav timeout w = Some (inr (wav', w'))
    /\ tx w' = tx w ++ [lit "AT+VTX" ++ [CR]] ++ blocks
    /\ List.length blocks = S n
    /\ List.concat blocks = firstn (S n * blen) (unread wav)
    /\ unread wav' = skipn (S (S n) * blen) (unread wav)
    /\ rx w' = rx w0.
Proof.
  intros w0 start blen Ht Hfuel Hbefore Hexit.
  rewrite play_audio_obj_unfold, Ht. fold w0. fold start.
  rewrite (play_loop_exit time_time n fuel start t _ _ w0 Hfuel Hbefore Hexit).
  cbn [nframes framerate framesize unread].
  eexists. eexists.
  exists (map (audio_block (framesize wav) (unread wav)) (seq 0 (S n))).
  split; [reflexivity|]. cbn [tx rx unread].
  split; [|split; [|split; [|split]]].
  - unfold w0. rewrite play_setup_tx, audio_blocks_shift, <- app_assoc.
    reflexivity.
  - rewrite length_map, length_seq. reflexivity.
  - apply audio_blocks_concat.
  - rewrite skipn_skipn. f_equal. fold blen.
    rewrite (Nat.mul_succ_l (S n)). reflexivity.
  - reflexivity.
Qed.

Lemma play_audio_obj_sends_audio_in_order_witness :
  exists wav' w' blocks,
    play_audio_obj quarter_clock 10 one_block_wav (inject_Z 1) play_world
    = Some (inr (wav', w'))
    /\ tx w' = tx play_world ++ [lit "AT+VTX" ++ [CR]] ++ blocks
    /\ List.length blocks = 4
    /\ List.concat blocks
       = firstn (4 * (chunksize * framesize one_block_wav)) (unread one_block_wav)
    /\ unread wav'
       = skipn (5 * (chunksize * framesize one_block_wav)) (unread one_block_wav)
    /\ rx w' = rx (play_setup play_world).
Proof.
  apply (play_audio_obj_sends_audio_in_order quarter_clock 3 10 one_block_wav
           (inject_Z 1) (inject_Z 1) play_world).
  - reflexivity.
  - apply Nat.ltb_lt. reflexivity.
  - intros i Hi. destruct i as [|[|[|i]]]; try (vm_compute; reflexivity).
    exfalso. apply Nat.ltb_lt in Hi. discriminate Hi.
  - vm_compute. reflexivity.
Defined.

(** ** Edge cases and file names of [record_call] *)

(** X12.  With a timeout of zero or less, on a clock that does not run
    backwards between the start reading and the first reading of the
    loop, [record_call] ends its loop in the first turn and records
    nothing: the one block it read is dropped. *)
Theorem record_call_nonpositive_timeout_records_nothing
    (time_time : nat -> Q) (cls : ClassObject) (fuel : nat)
    (date : option DateTime) (number : str) (timeout : Q) (w : World) :
  (timeout <= 0)%Q ->
  (record_start time_time w <= time_time (ticks (record_setup w)))%Q ->
  0 < fuel ->
  exists rec w',
    record_call time_time cls fuel date number timeout w = Some (rec, w')
    /\ wav_frames rec = []
    /\ w' = snd (hang_up (loop_exit_world (record_setup w) 0)).
Proof.
  intros Htimeout Hclock Hfuel.
  assert (Hexit : timed_out_at time_time (record_start time_time w) timeout
                    (record_setup w) 0 = true).
  { unfold timed_out_at. rewrite Nat.add_0_r. apply Qle_bool_iff.
    apply Qle_trans with (y := 0%Q); [exact Htimeout|].
    unfold Qminus. apply Qle_minus_iff in Hclock. exact Hclock. }
  rewrite record_call_unfold.
  rewrite (record_loop_exit time_time 0 fuel _ timeout [] (record_setup w) Hfuel);
    [| intros i Hi; lia | right; exact Hexit].
  cbn [seq map app]. eexists. eexists.
  split; [reflexivity|]. split; reflexivity.
Qed.

Lemma record_call_nonpositive_timeout_records_nothing_witness :
  exists rec w',
    record_call still_clock the_class 10 None (lit "unknown") (inject_Z 0)
      call_world = Some (rec, w')
    /\ wav_frames rec = []
    /\ w' = snd (hang_up (loop_exit_world (record_setup call_world) 0)).
Proof.
  apply (record_call_nonpositive_timeout_records_nothing still_clock the_class
           10 None (lit "unknown") (inject_Z 0) call_world).
  - apply Qle_bool_iff. reflexivity.
  - apply Qle_bool_iff. reflexivity.
  - apply Nat.ltb_lt. reflexivity.
Defined.











(** ** Two commands in a row *)

(** X14.  A command whose echo does not match fails without reading its
    result line; stray lines left behind in this way ([OK] or blank) do
    not disturb the next command, which behaves as if they had been
    consumed. *)
Theorem at_recovers_after_echo_mismatch
    (cmd1 expected1 cmd2 expected2 : str) (l1 : bytes)
    (leftovers rest sent : list bytes) (k : nat) :
  l1 <> CRLF -> l1 <> lit "OK" ++ CRLF ->
  l1 <> cmd1 ++ CRCRLF ->
  Forall (fun l => l = CRLF \/ l = lit "OK" ++ CRLF) leftovers ->
  let first := __at cmd1 expected1 (mkWorld (l1 :: leftovers ++ rest) sent k) in
  first = (false, mkWorld (leftovers ++ rest) (sent ++ [cmd1 ++ [CR]]) k)
  /\ __at cmd2 expected2 (snd first)
     = __at cmd2 expected2 (mkWorld rest (sent ++ [cmd1 ++ [CR]]) k).
Proof.
  intros H1 H2 Hecho Hleft first.
  assert (Hl1 : is_stray l1 = false).
  { destruct (is_stray l1) eqn:E; [|reflexivity].
    apply is_stray_cases in E. tauto. }
  assert (Hs : Forall (fun l => is_stray l = true) leftovers).
  { eapply Forall_impl; [|exact Hleft]. intros l Hl. apply is_stray_cases, Hl. }
  assert (Hfirst : first
            = (false, mkWorld (leftovers ++ rest) (sent ++ [cmd1 ++ [CR]]) k)).
  { unfold first. rewrite at_run; cbn [rx tx ticks].
    rewrite (next_substantive_found _ _ Hl1).
    apply bytes_eqb_neq in Hecho. rewrite Hecho. reflexivity. }
  split; [exact Hfirst|].
  rewrite Hfirst. cbn [snd]. rewrite !at_run; cbn [rx tx ticks].
  rewrite (next_substantive_skips _ _ Hs). reflexivity.
Qed.

Lemma at_recovers_after_echo_mismatch_witness :
  __at (lit "ATA") (lit "OK")
    (mkWorld (RING :: [lit "OK" ++ CRLF]
              ++ [lit "ATH" ++ CRCRLF; lit "OK" ++ CRLF]) [] 0)
  = (false, mkWorld ([lit "OK" ++ CRLF]
                     ++ [lit "ATH" ++ CRCRLF; lit "OK" ++ CRLF])
                    ([] ++ [lit "ATA" ++ [CR]]) 0)
  /\ __at (lit "ATH") (lit "OK")
       (snd (__at (lit "ATA") (lit "OK")
               (mkWorld (RING :: [lit "OK" ++ CRLF]
                         ++ [lit "ATH" ++ CRCRLF; lit "OK" ++ CRLF]) [] 0)))
     = __at (lit "ATH") (lit "OK")
         (mkWorld [lit "ATH" ++ CRCRLF; lit "OK" ++ CRLF]
                  ([] ++ [lit "ATA" ++ [CR]]) 0).
Proof.
  apply (at_recovers_after_echo_mismatch (lit "ATA") (lit "OK") (lit "ATH")
           (lit "OK") RING [lit "OK" ++ CRLF]
           [lit "ATH" ++ CRCRLF; lit "OK" ++ CRLF] [] 0).
  - discriminate.
  - discriminate.
  - discriminate.
  - repeat first [apply Forall_nil | apply Forall_cons;
                  [first [left; reflexivity | right; reflexivity]|]].
Defined.
